(** * sparrow.py: the scheduled Twitter poster

    A shallow embedding of [TwitterBot] and [handler] from sparrow.py, and the
    properties of its retry executor, credential resolution, message
    validation and entry point.

    Conventions of the model.
    - A Python exception is a value [Exn cls msg]: its class name and
      [str(e)].  Only subclasses of [Exception] are modelled (these are what
      [except Exception] catches).
    - A number of the configuration is what [json.load] gives: an [int] or
      a [float].  A float is modelled by its value: not-a-number, an infinity
      or a rational; comparisons are those of the values, false whenever a
      not-a-number takes part.  [**] on integers is exact; on a float it is
      the interpreter's, which rounds and may raise [OverflowError].
      [max_attempts] is an integer, as [range] requires.
    - Code runs in a small state-and-exception monad [M] over a [World]: the
      state of the services outside the process, and the chronological trace
      of what the process did (logger calls, invocations of the retried
      operation, sleeps, KMS calls, random draws).
    - Files, the process environment and the remote services are inputs:
      [Host] holds what the file system and [os.environ] contain, [Platform]
      what the remote services and the interpreter answer. *)

From Stdlib Require Import ZArith QArith Qabs List String Bool Lia.
From stdpp Require Import gmap strings list pretty.

Local Open Scope Z_scope.

(** ** Exceptions and results *)

Record exn := Exn { exn_class : string; exn_str : string }.

Inductive result (A : Type) : Type :=
| Return (a : A)
| Raise (e : exn).
Arguments Return {A} a.
Arguments Raise {A} e.

Definition ValueError (msg : string) : exn := Exn "ValueError" msg.
Definition AttributeError (msg : string) : exn := Exn "AttributeError" msg.
Definition KeyError (key : string) : exn := Exn "KeyError" ("'" +:+ key +:+ "'").

(** What [open(path, 'r')] raises when [path] does not exist. *)
Definition FileNotFoundError_open (path : string) : exn :=
  Exn "FileNotFoundError" ("[Errno 2] No such file or directory: '" +:+ path +:+ "'").

(** ** Numbers *)

(** The value of a [float]. *)
Inductive fval := NaN | NegInf | PosInf | Fin (q : Q).

Inductive number := Int (z : Z) | Float (v : fval).

Definition value (n : number) : fval :=
  match n with
  | Int z => Fin (inject_Z z)
  | Float v => v
  end.

Definition fval_lt (a b : fval) : bool :=
  match a, b with
  | NaN, _ | _, NaN => false
  | NegInf, NegInf => false
  | NegInf, _ => true
  | _, NegInf => false
  | PosInf, _ => false
  | Fin _, PosInf => true
  | Fin p, Fin q => match Qcompare p q with Lt => true | _ => false end
  end.

Definition fval_le (a b : fval) : bool :=
  match a, b with
  | NaN, _ | _, NaN => false
  | NegInf, _ => true
  | _, NegInf => false
  | _, PosInf => true
  | PosInf, _ => false
  | Fin p, Fin q => match Qcompare p q with Gt => false | _ => true end
  end.

(** [a < b] and [a <= b] on numbers, integers and floats mixed. *)
Definition num_lt (a b : number) : bool := fval_lt (value a) (value b).
Definition num_le (a b : number) : bool := fval_le (value a) (value b).

Definition is_nan (n : number) : bool :=
  match value n with NaN => true | _ => false end.

(** [min(a, b)]: the first argument unless the second is smaller. *)
Definition py_min (a b : number) : number := if num_lt b a then b else a.

(** ** Configuration (config.json) *)

Inductive Level := DEBUG | INFO | WARNING | ERROR | CRITICAL.

Record LoggingConfig := { level : Level; format : string }.
Record TwitterConfig := { credentials_file : string; use_kms : bool }.
Record RetryConfig := {
  max_attempts : Z;
  backoff_factor : number;
  max_delay : number;
}.
Record BotConfig := { tweets : list string }.

Record Config := {
  logging : LoggingConfig;
  twitter : TwitterConfig;
  retry : RetryConfig;
  bot : BotConfig;
}.

(** ** The surroundings of the process *)

(** What [open] followed by [json.load] finds at a path. *)
Inductive file (A : Type) : Type :=
| NoFile
| BadJson (msg : string)
| Doc (a : A).
Arguments NoFile {A}.
Arguments BadJson {A} msg.
Arguments Doc {A} a.

Record Host := {
  config_files : string -> file Config;
  creds_files : string -> file (gmap string string);
  environ : gmap string string;
}.

(** The client object built by [Twython(...)]: it holds the four secrets. *)
Record Twython := {
  app_key : string;
  app_secret : string;
  oauth_token : string;
  oauth_token_secret : string;
}.

(** The remote services and the interpreter.  [Ext] is the state of the
    services.  [float_pow x n] is [x ** n] for a float [x] and an integer
    [n >= 0], [str_float] is [str] of a float.  [time.sleep] accepts the
    durations from 0 to [max_sleep] and raises [sleep_error secs] on any
    other number (a negative one, a not-a-number, one out of range). *)
Record Platform := {
  Ext : Type;
  update_status : Twython -> string -> Ext -> result unit * Ext;
  boto3_client_kms : Ext -> result unit * Ext;
  kms_decrypt : string -> Ext -> result string * Ext;
  randbelow : nat -> Ext -> nat * Ext;
  float_pow : fval -> Z -> result fval;
  str_float : fval -> string;
  max_sleep : Q;
  sleep_error : number -> exn;
}.

(** ** Trace and world *)

Inductive event :=
| EvLog (lvl : Level) (msg : string)
| EvCall
| EvSleep (secs : number)
| EvKmsClient (ciphertext : string) (r : result unit)
| EvKms (ciphertext : string) (r : result string)
| EvChoice (n i : nat).

Record World (P : Platform) := mkWorld { ext : Ext P; trace : list event }.
Arguments mkWorld {P} ext trace.
Arguments ext {P} w.
Arguments trace {P} w.

(** ** The monad *)

Definition M (P : Platform) (A : Type) : Type := World P -> result A * World P.

Definition ret {P A} (a : A) : M P A := fun w => (Return a, w).

Definition raise {P A} (e : exn) : M P A := fun w => (Raise e, w).

Definition bind {P A B} (m : M P A) (k : A -> M P B) : M P B :=
  fun w => match m w with
           | (Return a, w') => k a w'
           | (Raise e, w') => (Raise e, w')
           end.

(** [try: m except Exception as e: h e]; what [h e] raises propagates. *)
Definition try_except {P A} (m : M P A) (h : exn -> M P A) : M P A :=
  fun w => match m w with
           | (Return a, w') => (Return a, w')
           | (Raise e, w') => h e w'
           end.

Declare Scope py_scope.
Delimit Scope py_scope with py.
Notation "'let*' x ':=' m 'in' k" := (bind m (fun x => k))
  (at level 10, x name, m at level 100, k at level 200) : py_scope.
Local Open Scope py_scope.

Definition emit {P} (ev : event) : M P unit :=
  fun w => (Return tt, mkWorld (ext w) (trace w ++ [ev])).

Definition log {P} (lvl : Level) (msg : string) : M P unit := emit (EvLog lvl msg).

(** A result of a pure computation, in the monad. *)
Definition lift {P A} (r : result A) : M P A := fun w => (r, w).

(** [time.sleep(secs)] *)
Definition sleep_ok (P : Platform) (secs : number) : bool :=
  match value secs with
  | Fin q => Qle_bool 0 q && Qle_bool q (max_sleep P)
  | _ => false
  end.

Definition time_sleep {P} (secs : number) : M P unit :=
  if sleep_ok P secs then emit (EvSleep secs) else raise (sleep_error P secs).

(** A call of the retried operation: the operation acts on the services. *)
Definition call {P A} (func : Ext P -> result A * Ext P) : M P A :=
  fun w => let (r, x) := func (ext w) in (r, mkWorld x (trace w ++ [EvCall])).

(** [range(n)] *)
Definition range (n : Z) : list Z := map Z.of_nat (seq 0 (Z.to_nat n)).

(** [str(n)] of an integer and of a number *)
Definition str_int (n : Z) : string := pretty n.

Definition str_num (P : Platform) (n : number) : string :=
  match n with
  | Int z => str_int z
  | Float v => str_float P v
  end.

(** [b ** n] for an integer [n >= 0] *)
Definition py_pow (P : Platform) (b : number) (n : Z) : result number :=
  match b with
  | Int z => Return (Int (z ^ n))
  | Float v =>
      match float_pow P v n with
      | Return r => Return (Float r)
      | Raise e => Raise e
      end
  end.

(** Line 136: [min(backoff_factor ** attempt, max_delay)]. *)
Definition delay (P : Platform) (retry_config : RetryConfig) (attempt : Z)
    : result number :=
  match py_pow P (backoff_factor retry_config) attempt with
  | Return x => Return (py_min x (max_delay retry_config))
  | Raise e => Raise e
  end.

(** ** TwitterBot._retry_with_backoff *)

Section Retry.
Context {P : Platform} {A : Type}.
Variable retry_config : RetryConfig.
Variable func : Ext P -> result A * Ext P.

(** The [for attempt in ...] loop; falling off its end returns [None]. *)
Fixpoint retry_loop (attempts : list Z) : M P (option A) :=
  match attempts with
  | [] => ret None
  | attempt :: rest =>
      try_except
        (let* v := call func in ret (Some v))
        (fun e =>
           if attempt =? max_attempts retry_config - 1 then
             let* _ := log ERROR ("Operation failed after " +:+ str_int (max_attempts retry_config)
                                  +:+ " attempts: " +:+ exn_str e) in
             raise e
           else
             let* delay := lift (delay P retry_config attempt) in
             let* _ := log WARNING ("Attempt " +:+ str_int (attempt + 1) +:+ " failed: "
                                    +:+ exn_str e +:+ ". Retrying in "
                                    +:+ str_num P delay +:+ "s...") in
             let* _ := time_sleep delay in
             retry_loop rest)
  end.

Definition _retry_with_backoff : M P (option A) :=
  retry_loop (range (max_attempts retry_config)).
End Retry.

(** ** TwitterBot *)

Inductive Formatter := JsonFormatter | PlainFormatter.

Record Logger := { logger_level : Level; formatter : Formatter }.

Record TwitterBot := {
  config : Config;
  logger : Logger;
  twitter_client : option Twython;
}.

(** The truth value and the length of a [str]. *)
Definition str_bool (s : string) : bool :=
  match s with EmptyString => false | String _ _ => true end.

Definition len (s : string) : Z := Z.of_nat (String.length s).

(** [d[key]] on a dict *)
Definition getitem {P} (d : gmap string string) (key : string) : M P string :=
  match d !! key with
  | Some v => ret v
  | None => raise (KeyError key)
  end.

(** Lines 84-89. *)
Definition cred_mapping : list (string * string) :=
  [ ("consumer_key", "TWITTER_CONSUMER_KEY");
    ("consumer_secret", "TWITTER_CONSUMER_SECRET");
    ("access_token_key", "TWITTER_ACCESS_TOKEN");
    ("access_token_secret", "TWITTER_ACCESS_TOKEN_SECRET") ].

(** The document handed to [json.dumps]; its serialisation is not modelled. *)
Inductive json := JBool (b : bool) | JStr (s : string).

Record Response := { statusCode : Z; body : list (string * json) }.

Section Bot.
Context {P : Platform}.
Variable host : Host.

Definition _load_config (config_path : string) : M P Config :=
  match config_files host config_path with
  | Doc c => ret c
  | NoFile =>
      raise (Exn "FileNotFoundError" ("Configuration file " +:+ config_path +:+ " not found"))
  | BadJson msg =>
      raise (ValueError ("Invalid JSON in configuration file: " +:+ msg))
  end.

Definition _setup_logging (config : Config) : M P Logger :=
  ret {| logger_level := level (logging config);
         formatter := if String.eqb (format (logging config)) "json"
                      then JsonFormatter else PlainFormatter |}.

(** [boto3.client('kms')] and [kms.decrypt(...)]: calls to the services. *)
Definition kms_client_call (ciphertext : string) : M P unit :=
  fun w => let (r, x) := boto3_client_kms P (ext w) in
           (r, mkWorld x (trace w ++ [EvKmsClient ciphertext r])).

Definition kms_decrypt_call (ciphertext : string) : M P string :=
  fun w => let (r, x) := kms_decrypt P ciphertext (ext w) in
           (r, mkWorld x (trace w ++ [EvKms ciphertext r])).

Definition _decrypt_with_kms (ciphertext : string) : M P string :=
  try_except
    (let* _ := kms_client_call ciphertext in
     let* _ := log INFO "Decrypting credentials with KMS" in
     kms_decrypt_call ciphertext)
    (fun e =>
       let* _ := log ERROR ("KMS decryption failed: " +:+ exn_str e) in
       raise e).

(** The loop of lines 94-102 over the items of [cred_mapping]. *)
Fixpoint load_loop (kms : bool) (credentials : gmap string string)
    (items : list (string * string)) (result : gmap string string)
    : M P (gmap string string) :=
  match items with
  | [] => ret result
  | (key, env_var) :: rest =>
      match credentials !! key with
      | Some value =>
          let* v := (if kms then _decrypt_with_kms value else ret value) in
          load_loop kms credentials rest (<[key := v]> result)
      | None =>
          match environ host !! env_var with
          | Some v =>
              let* _ := log INFO ("Using environment variable for " +:+ key) in
              load_loop kms credentials rest (<[key := v]> result)
          | None => raise (ValueError ("Missing credential: " +:+ key))
          end
      end
  end.

Definition _load_credentials (config : Config) : M P (gmap string string) :=
  let creds_file := credentials_file (twitter config) in
  match creds_files host creds_file with
  | NoFile =>
      let* _ := log ERROR ("Credentials file " +:+ creds_file +:+ " not found") in
      raise (FileNotFoundError_open creds_file)
  | BadJson msg => raise (Exn "JSONDecodeError" msg)
  | Doc credentials =>
      load_loop (use_kms (twitter config)) credentials cred_mapping ∅
  end.

Definition _setup_twitter_client (config : Config) : M P Twython :=
  try_except
    (let* creds := _load_credentials config in
     let* consumer_key := getitem creds "consumer_key" in
     let* consumer_secret := getitem creds "consumer_secret" in
     let* access_token_key := getitem creds "access_token_key" in
     let* access_token_secret := getitem creds "access_token_secret" in
     let* _ := log INFO "Twitter client initialized successfully" in
     ret {| app_key := consumer_key; app_secret := consumer_secret;
            oauth_token := access_token_key;
            oauth_token_secret := access_token_secret |})
    (fun e =>
       let* _ := log ERROR ("Failed to setup Twitter client: " +:+ exn_str e) in
       raise e).

(** [TwitterBot.__init__] *)
Definition TwitterBot_init (config_path : string) : M P TwitterBot :=
  let* config := _load_config config_path in
  let* logger := _setup_logging config in
  let* client := _setup_twitter_client config in
  ret {| config := config; logger := logger; twitter_client := Some client |}.

Definition send_tweet (self : TwitterBot) (tweet_text : string) : M P bool :=
  if negb (str_bool tweet_text) || (280 <? len tweet_text) then
    raise (ValueError "Tweet text must be 1-280 characters")
  else
    try_except
      (let* _ := match twitter_client self with
                 | Some client =>
                     _retry_with_backoff (retry (config self))
                       (update_status P client tweet_text)
                 | None =>
                     raise (AttributeError
                              "'NoneType' object has no attribute 'update_status'")
                 end in
       let* _ := log INFO ("Tweet sent successfully: "
                           +:+ substring 0 50 tweet_text +:+ "...") in
       ret true)
      (fun e =>
         let* _ := log ERROR ("Failed to send tweet: " +:+ exn_str e) in
         ret false).

(** [random.choice(seq)] on a non-empty list *)
Definition random_choice (seq : list string) : M P string :=
  fun w => let (i, x) := randbelow P (length seq) (ext w) in
           (Return (nth (i mod length seq) seq ""%string),
            mkWorld x (trace w ++ [EvChoice (length seq) i])).

Definition send_random_tweet (self : TwitterBot) : M P bool :=
  let tweets := tweets (bot (config self)) in
  match tweets with
  | [] =>
      let* _ := log ERROR "No tweets configured" in
      ret false
  | _ :: _ =>
      let* selected_tweet := random_choice tweets in
      send_tweet self selected_tweet
  end.

Definition handler {E C : Type} (event : E) (context : C) : M P Response :=
  try_except
    (let* bot := TwitterBot_init "config.json" in
     let* success := send_random_tweet bot in
     ret {| statusCode := if success then 200 else 500;
            body := [ ("success"%string, JBool success);
                      ("message"%string,
                       JStr (if success then "Tweet sent successfully"
                             else "Failed to send tweet")) ] |})
    (fun e =>
       let* _ := log ERROR ("Handler error: " +:+ exn_str e) in
       ret {| statusCode := 500;
              body := [ ("success"%string, JBool false);
                        ("error"%string, JStr (exn_str e)) ] |}).
End Bot.

(** ** Reading a trace *)

Definition is_call (ev : event) : bool :=
  match ev with EvCall => true | _ => false end.

Definition is_sleep (ev : event) : bool :=
  match ev with EvSleep _ => true | _ => false end.

(** How often the retried operation was invoked. *)
Definition calls (tr : list event) : nat := length (List.filter is_call tr).

(** The durations slept, in order. *)
Fixpoint sleeps (tr : list event) : list number :=
  match tr with
  | [] => []
  | EvSleep secs :: tr' => secs :: sleeps tr'
  | _ :: tr' => sleeps tr'
  end.

(** The invocations and sleeps of a trace, in order. *)
Definition timeline (tr : list event) : list event :=
  List.filter (fun ev => is_call ev || is_sleep ev) tr.

(** The state of the services after [n] invocations of [func]. *)
Fixpoint ext_after {P A} (func : Ext P -> result A * Ext P) (n : nat) (x : Ext P) : Ext P :=
  match n with
  | O => x
  | S n' => ext_after func n' (snd (func x))
  end.

(** The outcome of invocation number [n] (zero-based) of [func]. *)
Definition outcome {P A} (func : Ext P -> result A * Ext P) (n : nat) (x : Ext P) : result A :=
  fst (func (ext_after func n x)).

Definition is_raise {A} (r : result A) : bool :=
  match r with Raise _ => true | Return _ => false end.

(** The delay after a failed attempt is computed without error and is a
    duration [time.sleep] accepts. *)
Definition delay_ok (P : Platform) (rc : RetryConfig) (attempt : Z) : bool :=
  match delay P rc attempt with
  | Return d => sleep_ok P d
  | Raise _ => false
  end.

(** The two records the retry loop writes to the logger. *)
Definition warning_of (P : Platform) (attempt : Z) (e : exn) (d : number) : event :=
  EvLog WARNING ("Attempt " +:+ str_int (attempt + 1) +:+ " failed: "
                 +:+ exn_str e +:+ ". Retrying in "
                 +:+ str_num P d +:+ "s...").

Definition error_of (rc : RetryConfig) (e : exn) : event :=
  EvLog ERROR ("Operation failed after " +:+ str_int (max_attempts rc)
               +:+ " attempts: " +:+ exn_str e).

(** The record written when a field is taken from the environment. *)
Definition fallback_of (key : string) : event :=
  EvLog INFO ("Using environment variable for " +:+ key).

Definition missing_credential (key : string) : exn :=
  ValueError ("Missing credential: " +:+ key).

(** The errors of the KMS steps that failed, in order. *)
Fixpoint kms_failures (tr : list event) : list exn :=
  match tr with
  | [] => []
  | EvKmsClient _ (Raise e) :: tr' => e :: kms_failures tr'
  | EvKms _ (Raise e) :: tr' => e :: kms_failures tr'
  | _ :: tr' => kms_failures tr'
  end.

(** Decryption of [value] failed with [e] somewhere in the trace. *)
Definition failed_decrypt (value : string) (e : exn) (tr : list event) : Prop :=
  EvKmsClient value (Raise e) ∈ tr \/ EvKms value (Raise e) ∈ tr.

Definition is_kms_event (ev : event) : bool :=
  match ev with EvKmsClient _ _ | EvKms _ _ => true | _ => false end.

(** The fields of [items] found neither in the credentials file nor in the
    environment, in the order of the loop. *)
Definition is_unresolved (host : Host) (credentials : gmap string string)
    (item : string * string) : bool :=
  match credentials !! item.1, environ host !! item.2 with
  | None, None => true
  | _, _ => false
  end.

Definition unresolved (host : Host) (credentials : gmap string string)
    (items : list (string * string)) : list string :=
  (List.filter (is_unresolved host credentials) items).*1.

(** What the result holds for one field, by the rule of lines 95-99. *)
Definition resolved (host : Host) (kms : bool) (credentials result : gmap string string)
    (evs : list event) (item : string * string) : Prop :=
  match credentials !! item.1 with
  | Some value =>
      if kms then exists p, result !! item.1 = Some p /\ EvKms value (Return p) ∈ evs
      else result !! item.1 = Some value
  | None =>
      is_Some (environ host !! item.2) /\ result !! item.1 = environ host !! item.2
  end.

(** The records [_decrypt_with_kms] writes to the logger. *)
Definition decrypt_log : event := EvLog INFO "Decrypting credentials with KMS".

Definition decrypt_error_of (e : exn) : event :=
  EvLog ERROR ("KMS decryption failed: " +:+ exn_str e).

(** What a run of the loop of [_load_credentials] over [items], started with
    the dict [acc] in world [w], has done when it ends in [run]. *)
Definition load_post {P : Platform} (host : Host) (kms : bool)
    (credentials : gmap string string) (items : list (string * string))
    (acc : gmap string string) (w : World P)
    (run : result (gmap string string) * World P) : Prop :=
  exists evs x',
    snd run = mkWorld x' (trace w ++ evs)
    /\ (forall key, fallback_of key ∈ evs -> credentials !! key = None)
    /\ (kms = false -> List.filter is_kms_event evs = [] /\ x' = ext w)
    /\ match fst run with
       | Return result' =>
           dom result' = dom acc ∪ list_to_set items.*1
           /\ (forall key, key ∉ items.*1 -> result' !! key = acc !! key)
           /\ Forall (resolved host kms credentials result' evs) items
           /\ unresolved host credentials items = []
           /\ kms_failures evs = []
       | Raise e =>
           (kms_failures evs = []
            /\ exists key rest, unresolved host credentials items = key :: rest
                                /\ e = missing_credential key)
           \/ (kms = true
               /\ kms_failures evs = [e]
               /\ (exists item value, item ∈ items
                                      /\ credentials !! item.1 = Some value
                                      /\ failed_decrypt value e evs)
               /\ exists evs0, evs = evs0 ++ [decrypt_error_of e])
       end.

(** The error of the validation in [send_tweet]. *)
Definition validation_error : exn := ValueError "Tweet text must be 1-280 characters".

(** A text of [n] characters. *)
Fixpoint text_of_length (n : nat) : string :=
  match n with
  | O => EmptyString
  | S n' => String (Ascii.ascii_of_nat 97) (text_of_length n')
  end.

(** A finite duration in seconds, and the seconds slept in all. *)
Definition seconds (d : number) : Q :=
  match value d with
  | Fin q => q
  | _ => 0%Q
  end.

Fixpoint total (secs : list number) : Q :=
  match secs with
  | [] => 0%Q
  | s :: rest => (seconds s + total rest)%Q
  end.

(** The ciphertexts handed to [kms.decrypt], in order. *)
Fixpoint kms_requests (tr : list event) : list string :=
  match tr with
  | [] => []
  | EvKms c _ :: tr' => c :: kms_requests tr'
  | _ :: tr' => kms_requests tr'
  end.

(** The values the credentials file holds for the fields of [items], in the
    order of the loop. *)
Definition file_values (credentials : gmap string string)
    (items : list (string * string)) : list string :=
  omap (fun item : string * string => credentials !! item.1) items.

Definition is_log (ev : event) : bool :=
  match ev with EvLog _ _ => true | _ => false end.

(** The logger records of a credential resolution that succeeds: the notice
    of a decryption, and the notice that a field comes from the environment. *)
Definition credential_record (items : list (string * string)) (ev : event) : Prop :=
  ev = decrypt_log \/ exists item, item ∈ items /\ ev = fallback_of item.1.

(** The block run when the file is executed as a script: the value of
    [bot.send_random_tweet()] is dropped, an exception is not caught. *)
Definition main {P : Platform} (host : Host) : M P unit :=
  let* bot := TwitterBot_init host "config.json" in
  let* _ := send_random_tweet bot in
  ret tt.

(** The text passes the validation of [send_tweet]. *)
Definition valid_text (t : string) : Prop := t <> EmptyString /\ len t <= 280.

(** How many records were written to the logger. *)
Definition logs (tr : list event) : nat := length (List.filter is_log tr).

(** ** A concrete platform

    CPython on a 64-bit host, a posting API whose answer depends on how many
    requests it has received, and a key-management service given by a table.
    Used to run the model on concrete inputs.  Its [**] on floats does not
    round and overflows at [2 ** 1024]; its [str] of a float shows the
    fraction. *)

Definition cpython_max_sleep : Q := (9223372036854775807 # 1000000000)%Q.

Definition cpython_sleep_error (secs : number) : exn :=
  match value secs with
  | NaN => ValueError "Invalid value NaN (not a number)"
  | Fin q =>
      if Qle_bool 0 q || negb (Qle_bool (- cpython_max_sleep) q)
      then Exn "OverflowError" "timestamp too large to convert to C _PyTime_t"
      else ValueError "sleep length must be non-negative"
  | _ => Exn "OverflowError" "cannot convert float infinity to integer"
  end.

Definition demo_float_pow (v : fval) (n : Z) : result fval :=
  if n =? 0 then Return (Fin 1%Q)
  else match v with
       | Fin q =>
           if Qle_bool (inject_Z (2 ^ 1024)) (Qabs (Qpower q n))
           then Raise (Exn "OverflowError" "(34, 'Numerical result out of range')")
           else Return (Fin (Qred (Qpower q n)))
       | NegInf => Return (if Z.even n then PosInf else NegInf)
       | other => Return other
       end.

Definition demo_str_float (v : fval) : string :=
  match v with
  | NaN => "nan"
  | PosInf => "inf"
  | NegInf => "-inf"
  | Fin q => str_int (Qnum q) +:+ "/" +:+ str_int (Z.pos (Qden q))
  end.

Definition service_unavailable : exn :=
  Exn "TwythonError" "Twitter API returned a 503 (Service Unavailable)".

Definition demo_platform (up : nat -> bool) (kms : string -> result string) : Platform := {|
  Ext := nat;
  update_status := fun _ _ n =>
    (if up n then Return tt else Raise service_unavailable, S n);
  boto3_client_kms := fun n => (Return tt, n);
  kms_decrypt := fun c n => (kms c, n);
  randbelow := fun _ n => (0%nat, n);
  float_pow := demo_float_pow;
  str_float := demo_str_float;
  max_sleep := cpython_max_sleep;
  sleep_error := cpython_sleep_error;
|}.

Definition no_kms (c : string) : result string :=
  Raise (Exn "ClientError" "An error occurred (InvalidCiphertextException)").

(** The posting API is down for good. *)
Definition api_down : Platform := demo_platform (fun _ => false) no_kms.

(** The posting API rejects its first [n] requests. *)
Definition api_down_for (n : nat) : Platform :=
  demo_platform (fun i => (n <=? i)%nat) no_kms.

Definition demo_client : Twython :=
  {| app_key := "ck"; app_secret := "cs"; oauth_token := "at"; oauth_token_secret := "ats" |}.

Definition fresh {P : Platform} (x : Ext P) : World P := mkWorld x [].

(** A policy of three integers. *)
Definition policy (n b d : Z) : RetryConfig :=
  {| max_attempts := n; backoff_factor := Int b; max_delay := Int d |}.

Definition post_hello (P : Platform) : Ext P -> result unit * Ext P :=
  update_status P demo_client "hello".


(** A key-management service that cannot decrypt the value ["garbled"]. *)
Definition invalid_ciphertext : exn :=
  Exn "InvalidCiphertextException"
      "An error occurred (InvalidCiphertextException) when calling the Decrypt operation".

Definition demo_kms (c : string) : result string :=
  if String.eqb c "garbled" then Raise invalid_ciphertext else Return ("plain-" +:+ c).

Definition api_up : Platform := demo_platform (fun _ => true) demo_kms.

Definition demo_config (kms : bool) (tws : list string) : Config := {|
  logging := {| level := INFO; format := "json" |};
  twitter := {| credentials_file := "credentials.json"; use_kms := kms |};
  retry := policy 3 2 10;
  bot := {| tweets := tws |};
|}.

Definition host_of (kms : bool) (tws : list string) (creds : file (gmap string string))
    (env : gmap string string) : Host := {|
  config_files := fun path =>
    if String.eqb path "config.json" then Doc (demo_config kms tws) else NoFile;
  creds_files := fun path =>
    if String.eqb path "credentials.json" then creds else NoFile;
  environ := env;
|}.

(** A credentials file with three of the four fields. *)
Definition three_fields : gmap string string :=
  <["consumer_key" := "ck"]> (<["consumer_secret" := "cs"]>
    (<["access_token_key" := "at"]> ∅)).

(** A credentials file with the four fields, one of them undecryptable. *)
Definition garbled_fields : gmap string string :=
  <["consumer_key" := "ck"]> (<["consumer_secret" := "garbled"]>
    (<["access_token_key" := "at"]> (<["access_token_secret" := "ats"]> ∅))).

Definition all_env : gmap string string :=
  <["TWITTER_CONSUMER_KEY" := "env-ck"]> (<["TWITTER_CONSUMER_SECRET" := "env-cs"]>
    (<["TWITTER_ACCESS_TOKEN" := "env-at"]>
      (<["TWITTER_ACCESS_TOKEN_SECRET" := "env-ats"]> ∅))).

Definition secret_env : gmap string string :=
  <["TWITTER_ACCESS_TOKEN_SECRET" := "env-ats"]> ∅.

Definition demo_bot (tws : list string) : TwitterBot := {|
  config := demo_config false tws;
  logger := {| logger_level := INFO; formatter := JsonFormatter |};
  twitter_client := Some demo_client;
|}.

Definition full_fields : gmap string string :=
  <["access_token_secret" := "ats"]> three_fields.



Definition steep_policy : RetryConfig :=
  {| max_attempts := 4;
     backoff_factor := Float (Fin (inject_Z (10 ^ 200)));
     max_delay := Int 10 |}.

(** A host without config.json, everything else in place. *)
Definition no_config_host : Host := {|
  config_files := fun _ => NoFile;
  creds_files := fun _ => Doc full_fields;
  environ := all_env;
|}.

(** A bot whose retry policy allows no attempt. *)
Definition idle_bot : TwitterBot := {|
  config := {| logging := {| level := INFO; format := "json" |};
               twitter := {| credentials_file := "credentials.json"; use_kms := false |};
               retry := policy 0 2 10;
               bot := {| tweets := ["hello"] |} |};
  logger := {| logger_level := INFO; formatter := JsonFormatter |};
  twitter_client := Some demo_client;
|}.

(** * Properties *)

Lemma calls_app tr1 tr2 : calls (tr1 ++ tr2) = (calls tr1 + calls tr2)%nat.
Proof. unfold calls. by rewrite List.filter_app, length_app. Qed.

Lemma sleeps_app tr1 tr2 : sleeps (tr1 ++ tr2) = sleeps tr1 ++ sleeps tr2.
Proof.
  induction tr1 as [|ev tr1 IH]; [done|].
  destruct ev; simpl; by rewrite ?IH.
Qed.

Lemma timeline_app tr1 tr2 : timeline (tr1 ++ tr2) = timeline tr1 ++ timeline tr2.
Proof. apply List.filter_app. Qed.

Lemma ext_after_S {P A} (func : Ext P -> result A * Ext P) n x :
  ext_after func (S n) x = snd (func (ext_after func n x)).
Proof. revert x. induction n as [|n IH]; intros x; [done|]. simpl in *. by rewrite IH. Qed.

(** ** The order of numbers *)

Lemma Qle_fval_le (p q : Q) : (p <= q)%Q -> fval_le (Fin p) (Fin q) = true.
Proof.
  intros Hle. pose proof (proj1 (Qle_alt p q) Hle) as Hne. simpl.
  destruct (Qcompare p q); [done|done|by destruct Hne].
Qed.

Lemma fval_le_Qle (p q : Q) : fval_le (Fin p) (Fin q) = true -> (p <= q)%Q.
Proof.
  simpl. intros H. apply (proj2 (Qle_alt p q)). intros Hgt. by rewrite Hgt in H.
Qed.

Lemma fval_le_refl (v : fval) : v <> NaN -> fval_le v v = true.
Proof.
  destruct v as [| | |q]; try done. intros _. simpl.
  replace (Qcompare q q) with Eq; [done|].
  symmetry. apply Qeq_alt. reflexivity.
Qed.

Lemma fval_not_lt_le (a b : fval) :
  a <> NaN -> b <> NaN -> fval_lt b a = false -> fval_le a b = true.
Proof.
  destruct a as [| | |p], b as [| | |q]; try done. simpl. intros _ _.
  rewrite <- (Qcompare_antisym p q). by destruct (Qcompare p q).
Qed.

Lemma fval_lt_not_nan (a b : fval) : fval_lt a b = true -> a <> NaN /\ b <> NaN.
Proof. by destruct a, b. Qed.

Lemma fval_le_not_nan (a b : fval) : fval_le a b = true -> a <> NaN /\ b <> NaN.
Proof. by destruct a, b. Qed.

Lemma fval_lt_le_trans (a b c : fval) :
  fval_lt a b = true -> fval_le b c = true -> fval_lt a c = true.
Proof.
  destruct a as [| | |p], b as [| | |q], c as [| | |r]; try done. simpl.
  destruct (Qcompare p q) eqn:Hpq; try done.
  destruct (Qcompare q r) eqn:Hqr; try done; intros _ _.
  - apply Qeq_alt in Hqr. apply Qlt_alt in Hpq.
    replace (Qcompare p r) with Lt; [done|]. symmetry. apply Qlt_alt.
    by rewrite <- Hqr.
  - apply Qlt_alt in Hqr. apply Qlt_alt in Hpq.
    replace (Qcompare p r) with Lt; [done|]. symmetry. apply Qlt_alt.
    by apply Qlt_trans with q.
Qed.

Lemma fval_le_trans (a b c : fval) :
  fval_le a b = true -> fval_le b c = true -> fval_le a c = true.
Proof.
  destruct a as [| | |p], b as [| | |q], c as [| | |r]; try done. simpl.
  destruct (Qcompare p q) eqn:Hpq; try done;
    destruct (Qcompare q r) eqn:Hqr; try done; intros _ _.
  all: apply (Qle_fval_le p r), Qle_trans with q; apply Qle_alt; congruence.
Qed.

Lemma fval_le_int (x y : Z) : x <= y -> fval_le (Fin (inject_Z x)) (Fin (inject_Z y)) = true.
Proof.
  intros Hxy. apply Qle_fval_le. by rewrite <- Zle_Qle.
Qed.

(** A duration [time.sleep] accepts is a number that is at least zero. *)
Lemma sleep_ok_nonneg (P : Platform) (d : number) :
  sleep_ok P d = true -> num_le (Int 0) d = true.
Proof.
  unfold sleep_ok, num_le. destruct (value d) as [| | |q]; try done.
  intros [Hlo _]%andb_true_iff. apply Qle_bool_iff in Hlo.
  by apply Qle_fval_le.
Qed.

Lemma sleep_ok_not_nan (P : Platform) (d : number) :
  sleep_ok P d = true -> is_nan d = false.
Proof. unfold sleep_ok, is_nan. by destruct (value d). Qed.

(** [min(x, D)] is at most [D], unless one of the two is a not-a-number. *)
Lemma py_min_le (x D : number) :
  is_nan D = false -> is_nan (py_min x D) = false -> num_le (py_min x D) D = true.
Proof.
  unfold py_min, is_nan, num_le, num_lt. intros HD.
  destruct (fval_lt (value D) (value x)) eqn:Hlt; intros Hm.
  - apply fval_le_refl. by destruct (value D).
  - apply fval_not_lt_le; [by destruct (value x)|by destruct (value D)|done].
Qed.

(** ** One iteration of the retry loop *)

Section RetrySteps.
Context {P : Platform} {A : Type}.
Variable rc : RetryConfig.
Variable func : Ext P -> result A * Ext P.

Lemma retry_step_success attempt rest w v :
  fst (func (ext w)) = Return v ->
  retry_loop rc func (attempt :: rest) w
  = (Return (Some v), mkWorld (snd (func (ext w))) (trace w ++ [EvCall])).
Proof.
  intros Hv. simpl. unfold try_except, bind, call.
  destruct (func (ext w)) as [r x]. simpl in Hv. by subst r.
Qed.

Lemma retry_step_last attempt rest w e :
  fst (func (ext w)) = Raise e ->
  attempt = max_attempts rc - 1 ->
  retry_loop rc func (attempt :: rest) w
  = (Raise e, mkWorld (snd (func (ext w))) ((trace w ++ [EvCall]) ++ [error_of rc e])).
Proof.
  intros He Hlast. simpl. unfold try_except, bind, call.
  destruct (func (ext w)) as [r x]. simpl in He. subst r.
  by rewrite (proj2 (Z.eqb_eq _ _) Hlast).
Qed.

Lemma retry_step_sleep attempt rest w e d :
  fst (func (ext w)) = Raise e ->
  attempt <> max_attempts rc - 1 ->
  delay P rc attempt = Return d ->
  sleep_ok P d = true ->
  retry_loop rc func (attempt :: rest) w
  = retry_loop rc func rest
      (mkWorld (snd (func (ext w)))
         (((trace w ++ [EvCall]) ++ [warning_of P attempt e d]) ++ [EvSleep d])).
Proof.
  intros He Hnot Hd Hok. simpl. unfold try_except, bind, call.
  destruct (func (ext w)) as [r x]. simpl in He. subst r.
  rewrite (proj2 (Z.eqb_neq _ _) Hnot).
  unfold lift, log, emit, time_sleep. rewrite Hd. simpl. rewrite Hok. done.
Qed.

Lemma retry_step_rejected attempt rest w e d :
  fst (func (ext w)) = Raise e ->
  attempt <> max_attempts rc - 1 ->
  delay P rc attempt = Return d ->
  sleep_ok P d = false ->
  retry_loop rc func (attempt :: rest) w
  = (Raise (sleep_error P d),
     mkWorld (snd (func (ext w))) ((trace w ++ [EvCall]) ++ [warning_of P attempt e d])).
Proof.
  intros He Hnot Hd Hok. simpl. unfold try_except, bind, call.
  destruct (func (ext w)) as [r x]. simpl in He. subst r.
  rewrite (proj2 (Z.eqb_neq _ _) Hnot).
  unfold lift, log, emit, time_sleep. rewrite Hd. simpl. rewrite Hok. done.
Qed.

(** Line 136 raises: the warning is not written and nothing is slept. *)
Lemma retry_step_no_delay attempt rest w e e' :
  fst (func (ext w)) = Raise e ->
  attempt <> max_attempts rc - 1 ->
  delay P rc attempt = Raise e' ->
  retry_loop rc func (attempt :: rest) w
  = (Raise e', mkWorld (snd (func (ext w))) (trace w ++ [EvCall])).
Proof.
  intros He Hnot Hd. simpl. unfold try_except, bind, call.
  destruct (func (ext w)) as [r x]. simpl in He. subst r.
  rewrite (proj2 (Z.eqb_neq _ _) Hnot).
  unfold lift. by rewrite Hd.
Qed.

Lemma delay_ok_inv attempt :
  delay_ok P rc attempt = true ->
  exists d, delay P rc attempt = Return d /\ sleep_ok P d = true.
Proof.
  unfold delay_ok. destruct (delay P rc attempt) as [d|e]; [|done]. by exists d.
Qed.
End RetrySteps.

(** ** Runs of the retry loop *)

Section RetryRuns.
Context {P : Platform} {A : Type}.
Variable rc : RetryConfig.
Variable func : Ext P -> result A * Ext P.

Lemma range_nat (n : nat) : range (Z.of_nat n) = map Z.of_nat (seq 0 n).
Proof. unfold range. by rewrite Nat2Z.id. Qed.

Lemma range_last (n : Z) :
  1 <= n -> range n = range (n - 1) ++ [n - 1].
Proof.
  intros Hn. unfold range.
  replace (Z.to_nat n) with (S (Z.to_nat (n - 1))) by lia.
  rewrite seq_S, map_app. simpl. do 2 f_equal. lia.
Qed.

(** [j] failed attempts in a row, none of them the last allowed one, each
    followed by a delay computed without error that the interpreter
    accepts. *)
Lemma retry_failing_prefix (j : nat) : forall (k : nat) rest w,
  (forall i, (i < j)%nat -> is_raise (outcome func i (ext w)) = true) ->
  (forall i, (i < j)%nat -> Z.of_nat (k + i) <> max_attempts rc - 1) ->
  (forall i, (i < j)%nat -> delay_ok P rc (Z.of_nat (k + i)) = true) ->
  exists evs,
    retry_loop rc func (map Z.of_nat (seq k j) ++ rest) w
    = retry_loop rc func rest (mkWorld (ext_after func j (ext w)) (trace w ++ evs))
    /\ calls evs = j
    /\ map Return (sleeps evs) = map (delay P rc) (map Z.of_nat (seq k j))
    /\ timeline evs = flat_map (fun d => [EvCall; EvSleep d]) (sleeps evs).
Proof.
  induction j as [|j IH]; intros k rest w Hfail Hnot Hok.
  - exists []. simpl. rewrite app_nil_r. by destruct w.
  - assert (H0 : is_raise (fst (func (ext w))) = true) by (apply (Hfail 0%nat); lia).
    destruct (fst (func (ext w))) as [v|e] eqn:He; [discriminate|].
    pose proof (Hnot 0%nat ltac:(lia)) as Hn0.
    pose proof (Hok 0%nat ltac:(lia)) as Hs0.
    rewrite Nat.add_0_r in Hn0, Hs0.
    apply delay_ok_inv in Hs0 as (d & Hd & Hs0).
    set (w1 := mkWorld (snd (func (ext w)))
                 (((trace w ++ [EvCall]) ++ [warning_of P (Z.of_nat k) e d])
                  ++ [EvSleep d])).
    destruct (IH (S k) rest w1) as (evs & Hrun & Hc & Hs & Ht).
    + intros i Hi. apply (Hfail (S i)). lia.
    + intros i Hi. replace (S k + i)%nat with (k + S i)%nat by lia. apply Hnot. lia.
    + intros i Hi. replace (S k + i)%nat with (k + S i)%nat by lia. apply Hok. lia.
    + exists ([EvCall; warning_of P (Z.of_nat k) e d; EvSleep d] ++ evs).
      split; [|split; [|split]].
      * simpl seq. simpl map. simpl app at 1.
        rewrite (retry_step_sleep rc func _ _ w e d He Hn0 Hd Hs0).
        fold w1. rewrite Hrun. simpl ext. simpl trace.
        do 2 f_equal. rewrite <- !app_assoc. done.
      * rewrite calls_app, Hc. done.
      * rewrite sleeps_app. simpl. by rewrite Hs, Hd.
      * rewrite timeline_app, sleeps_app, Ht. done.
Qed.
End RetryRuns.

Section RetryTheorems.
Context {P : Platform} {A : Type}.
Variable rc : RetryConfig.
Variable func : Ext P -> result A * Ext P.


End RetryTheorems.

Section RetryOutcomes.
Context {P : Platform} {A : Type}.
Variable rc : RetryConfig.
Variable func : Ext P -> result A * Ext P.

(** C1 (amended).  Under a policy with [max_attempts = N >= 1] whose delays
    [min(backoff_factor ** i, max_delay)], [0 <= i < N - 1], are each
    computed without error and are durations [time.sleep] accepts, an
    operation that fails on every invocation is invoked exactly [N] times
    and the error of the [N]-th invocation is the one raised to the caller;
    with [N = 1] there is one invocation and no sleep. *)
Theorem retry_exhausted w :
  1 <= max_attempts rc ->
  (forall x, is_raise (fst (func x)) = true) ->
  (forall i, 0 <= i < max_attempts rc - 1 -> delay_ok P rc i = true) ->
  exists e evs,
    _retry_with_backoff rc func w
    = (Raise e,
       mkWorld (ext_after func (Z.to_nat (max_attempts rc)) (ext w)) (trace w ++ evs))
    /\ outcome func (Z.to_nat (max_attempts rc) - 1) (ext w) = Raise e
    /\ calls evs = Z.to_nat (max_attempts rc)
    /\ map Return (sleeps evs) = map (delay P rc) (range (max_attempts rc - 1))
    /\ (max_attempts rc = 1 -> calls evs = 1%nat /\ sleeps evs = []).
Proof.
  intros HN Hfail Hok.
  set (j := Z.to_nat (max_attempts rc - 1)).
  assert (Hj : Z.of_nat j = max_attempts rc - 1) by lia.
  destruct (retry_failing_prefix rc func j 0%nat [max_attempts rc - 1] w)
    as (evs & Hrun & Hc & Hs & _).
  { intros i _. apply Hfail. }
  { intros i Hi. lia. }
  { intros i Hi. apply Hok. lia. }
  set (w1 := mkWorld (ext_after func j (ext w)) (trace w ++ evs)) in Hrun.
  pose proof (Hfail (ext w1)) as Hlast.
  destruct (fst (func (ext w1))) as [v|e] eqn:He; [discriminate|].
  exists e, (evs ++ [EvCall; error_of rc e]).
  assert (Hn : Z.to_nat (max_attempts rc) = S j) by lia.
  split; [|split; [|split; [|split]]].
  - unfold _retry_with_backoff. rewrite (range_last _ HN).
    unfold range at 1. fold j. rewrite Hrun.
    rewrite (retry_step_last rc func _ _ w1 e He eq_refl).
    rewrite Hn, ext_after_S. unfold w1. simpl ext. simpl trace.
    by rewrite <- !app_assoc.
  - rewrite Hn. replace (S j - 1)%nat with j by lia. exact He.
  - rewrite calls_app, Hc, Hn. change (calls [EvCall; error_of rc e]) with 1%nat. lia.
  - rewrite sleeps_app. simpl. by rewrite app_nil_r.
  - intros H1. rewrite calls_app, sleeps_app, Hc. simpl. rewrite app_nil_r.
    replace j with 0%nat in * by lia. simpl in Hs.
    split; [done|]. by destruct (sleeps evs).
Qed.

(** C3 (amended).  Under a policy with [max_attempts = N >= 1], when the
    operation fails on its first [k - 1] invocations and succeeds on the
    [k]-th, [k <= N], and the [k - 1] delays before it are each computed
    without error and are durations [time.sleep] accepts, the operation is
    invoked exactly [k] times, there are exactly [k - 1] sleeps, and the
    result of the [k]-th invocation is returned right after it: the last
    thing on the timeline is that invocation. *)
Theorem retry_succeeds (k : nat) v w :
  (1 <= k)%nat ->
  Z.of_nat k <= max_attempts rc ->
  (forall i, (i < k - 1)%nat -> is_raise (outcome func i (ext w)) = true) ->
  outcome func (k - 1) (ext w) = Return v ->
  (forall i, 0 <= i < Z.of_nat k - 1 -> delay_ok P rc i = true) ->
  exists evs,
    _retry_with_backoff rc func w
    = (Return (Some v), mkWorld (ext_after func k (ext w)) (trace w ++ evs))
    /\ calls evs = k
    /\ length (sleeps evs) = (k - 1)%nat
    /\ map Return (sleeps evs) = map (delay P rc) (range (Z.of_nat k - 1))
    /\ timeline evs = flat_map (fun d => [EvCall; EvSleep d]) (sleeps evs) ++ [EvCall].
Proof.
  intros Hk HkN Hfail Hv Hok.
  destruct k as [|j]; [lia|]. clear Hk.
  replace (S j - 1)%nat with j in * by lia.
  set (rest := map Z.of_nat (seq (S j) (Z.to_nat (max_attempts rc) - S j))).
  assert (Hsplit : range (max_attempts rc)
                   = map Z.of_nat (seq 0 j) ++ Z.of_nat j :: rest).
  { unfold range, rest.
    replace (Z.to_nat (max_attempts rc))
      with (j + S (Z.to_nat (max_attempts rc) - S j))%nat at 1 by lia.
    by rewrite seq_app, map_app. }
  destruct (retry_failing_prefix rc func j 0%nat (Z.of_nat j :: rest) w)
    as (evs & Hrun & Hc & Hs & Ht).
  { exact Hfail. }
  { intros i Hi. lia. }
  { intros i Hi. apply Hok. lia. }
  set (w1 := mkWorld (ext_after func j (ext w)) (trace w ++ evs)) in Hrun.
  exists (evs ++ [EvCall]).
  assert (Hlen : length (sleeps evs) = j).
  { apply (f_equal length) in Hs. by rewrite !length_map, length_seq in Hs. }
  split; [|split; [|split; [|split]]].
  - unfold _retry_with_backoff. rewrite Hsplit, Hrun.
    rewrite (retry_step_success rc func _ _ w1 v Hv).
    rewrite ext_after_S.
    unfold w1. simpl ext. simpl trace. by rewrite <- app_assoc.
  - rewrite calls_app, Hc. change (calls [EvCall]) with 1%nat. lia.
  - by rewrite sleeps_app, app_nil_r.
  - rewrite sleeps_app, app_nil_r, Hs.
    replace (Z.of_nat (S j) - 1) with (Z.of_nat j) by lia.
    by rewrite range_nat.
  - by rewrite timeline_app, sleeps_app, app_nil_r, Ht.
Qed.
End RetryOutcomes.

(** ** The retry executor on concrete policies *)

Example retry_scenario_3_2_10 :
  let r := _retry_with_backoff (policy 3 2 10) (post_hello (api_down_for 2))
             (fresh (P := api_down_for 2) 0%nat) in
  fst r = Return (Some tt)
  /\ sleeps (trace (snd r)) = [Int 1; Int 2]
  /\ calls (trace (snd r)) = 3%nat.
Proof. vm_compute. done. Qed.

Example retry_scenario_2_5_3 :
  let r := _retry_with_backoff (policy 2 5 3) (post_hello api_down)
             (fresh (P := api_down) 0%nat) in
  fst r = Raise service_unavailable
  /\ sleeps (trace (snd r)) = [Int 1]
  /\ calls (trace (snd r)) = 2%nat.
Proof. vm_compute. done. Qed.

Lemma retry_exhausted_witness :
  let rc := policy 3 2 10 in
  let func := post_hello api_down in
  let w := fresh (P := api_down) 0%nat in
  1 <= max_attempts rc
  /\ (forall x, is_raise (fst (func x)) = true)
  /\ (forall i, 0 <= i < max_attempts rc - 1 -> delay_ok api_down rc i = true)
  /\ exists e evs,
       _retry_with_backoff rc func w
       = (Raise e,
          mkWorld (ext_after func (Z.to_nat (max_attempts rc)) (ext w)) (trace w ++ evs))
       /\ outcome func (Z.to_nat (max_attempts rc) - 1) (ext w) = Raise e
       /\ calls evs = Z.to_nat (max_attempts rc)
       /\ map Return (sleeps evs) = map (delay api_down rc) (range (max_attempts rc - 1))
       /\ (max_attempts rc = 1 -> calls evs = 1%nat /\ sleeps evs = []).
Proof.
  intros rc func w.
  assert (H1 : 1 <= max_attempts rc) by (simpl; lia).
  assert (H2 : forall x, is_raise (fst (func x)) = true) by (intros x; reflexivity).
  assert (H3 : forall i, 0 <= i < max_attempts rc - 1 ->
                 delay_ok api_down rc i = true).
  { intros i Hi. simpl in Hi.
    destruct (decide (i = 0)) as [->|]; [reflexivity|].
    replace i with 1 by lia. reflexivity. }
  split; [exact H1|]. split; [exact H2|]. split; [exact H3|].
  exact (retry_exhausted rc func w H1 H2 H3).
Defined.

(** The claim of C1 read for every policy fails when a delay is negative:
    with [max_attempts = 2] and [max_delay = -1] the operation is invoked
    once, [time.sleep(-1)] raises, and that [ValueError] is what the caller
    sees instead of the operation's error. *)
Lemma retry_exhausted_negative_delay :
  let rc := policy 2 2 (-1) in
  let func := post_hello api_down in
  let w := fresh (P := api_down) 0%nat in
  1 <= max_attempts rc
  /\ (forall x, is_raise (fst (func x)) = true)
  /\ _retry_with_backoff rc func w
     = (Raise (ValueError "sleep length must be non-negative"),
        mkWorld (P := api_down) 1%nat
          [EvCall; warning_of api_down 0 service_unavailable (Int (-1))])
  /\ ~ (exists e evs x',
          _retry_with_backoff rc func w = (Raise e, mkWorld x' (trace w ++ evs))
          /\ outcome func (Z.to_nat (max_attempts rc) - 1) (ext w) = Raise e
          /\ calls evs = Z.to_nat (max_attempts rc)).
Proof.
  intros rc func w.
  assert (Hrun : _retry_with_backoff rc func w
                 = (Raise (ValueError "sleep length must be non-negative"),
                    mkWorld (P := api_down) 1%nat
                      [EvCall; warning_of api_down 0 service_unavailable (Int (-1))]))
    by (vm_compute; reflexivity).
  split; [simpl; lia|]. split; [intros x; reflexivity|]. split; [exact Hrun|].
  intros (e & evs & x' & Heq & _ & Hcalls).
  rewrite Hrun in Heq. injection Heq as _ _ Htr. simpl in Htr. subst evs.
  vm_compute in Hcalls. discriminate.
Qed.

Lemma retry_succeeds_witness :
  let rc := policy 3 2 10 in
  let func := post_hello (api_down_for 2) in
  let w := fresh (P := api_down_for 2) 0%nat in
  (1 <= 3)%nat
  /\ Z.of_nat 3 <= max_attempts rc
  /\ (forall i, (i < 3 - 1)%nat -> is_raise (outcome func i (ext w)) = true)
  /\ outcome func (3 - 1) (ext w) = Return tt
  /\ (forall i, 0 <= i < Z.of_nat 3 - 1 -> delay_ok (api_down_for 2) rc i = true)
  /\ exists evs,
       _retry_with_backoff rc func w
       = (Return (Some tt), mkWorld (ext_after func 3 (ext w)) (trace w ++ evs))
       /\ calls evs = 3%nat
       /\ length (sleeps evs) = (3 - 1)%nat
       /\ map Return (sleeps evs)
          = map (delay (api_down_for 2) rc) (range (Z.of_nat 3 - 1))
       /\ timeline evs
          = flat_map (fun d => [EvCall; EvSleep d]) (sleeps evs) ++ [EvCall].
Proof.
  intros rc func w.
  assert (H1 : (1 <= 3)%nat) by lia.
  assert (H2 : Z.of_nat 3 <= max_attempts rc) by (simpl; lia).
  assert (H3 : forall i, (i < 3 - 1)%nat -> is_raise (outcome func i (ext w)) = true).
  { intros i Hi. destruct i as [|[|i]]; [reflexivity|reflexivity|simpl in Hi; lia]. }
  assert (H4 : outcome func (3 - 1) (ext w) = Return tt) by reflexivity.
  assert (H5 : forall i, 0 <= i < Z.of_nat 3 - 1 ->
                 delay_ok (api_down_for 2) rc i = true).
  { intros i Hi. simpl in Hi.
    destruct (decide (i = 0)) as [->|]; [reflexivity|].
    replace i with 1 by lia. reflexivity. }
  split; [exact H1|]. split; [exact H2|]. split; [exact H3|]. split; [exact H4|].
  split; [exact H5|].
  exact (retry_succeeds rc func 3 tt w H1 H2 H3 H4 H5).
Defined.

(** The claim of C3 read for every policy fails in the same way: with
    [max_attempts = 2] and [max_delay = -1] an operation that would succeed
    on its second invocation is invoked once, and [time.sleep(-1)] raises. *)
Lemma retry_succeeds_negative_delay :
  let rc := policy 2 2 (-1) in
  let func := post_hello (api_down_for 1) in
  let w := fresh (P := api_down_for 1) 0%nat in
  Z.of_nat 2 <= max_attempts rc
  /\ is_raise (outcome func 0 (ext w)) = true
  /\ outcome func 1 (ext w) = Return tt
  /\ _retry_with_backoff rc func w
     = (Raise (ValueError "sleep length must be non-negative"),
        mkWorld (P := api_down_for 1) 1%nat
          [EvCall; warning_of (api_down_for 1) 0 service_unavailable (Int (-1))])
  /\ ~ (exists evs x',
          _retry_with_backoff rc func w = (Return (Some tt), mkWorld x' (trace w ++ evs))
          /\ calls evs = 2%nat).
Proof.
  intros rc func w.
  assert (Hrun : _retry_with_backoff rc func w
                 = (Raise (ValueError "sleep length must be non-negative"),
                    mkWorld (P := api_down_for 1) 1%nat
                      [EvCall; warning_of (api_down_for 1) 0 service_unavailable (Int (-1))]))
    by (vm_compute; reflexivity).
  split; [simpl; lia|]. split; [reflexivity|]. split; [reflexivity|].
  split; [exact Hrun|].
  intros (evs & x' & Heq & _). rewrite Hrun in Heq. discriminate.
Qed.


(** With a float factor line 136 can raise: after the third failure
    [backoff_factor ** 2] overflows, the warning is not written, and the
    [OverflowError] is what the caller sees. *)
Example retry_steep_policy :
  let r := _retry_with_backoff steep_policy (post_hello api_down)
             (fresh (P := api_down) 0%nat) in
  fst r = Raise (Exn "OverflowError" "(34, 'Numerical result out of range')")
  /\ calls (trace (snd r)) = 3%nat
  /\ logs (trace (snd r)) = 2%nat
  /\ sleeps (trace (snd r)) = [Float (Fin 1); Int 10].
Proof. vm_compute. done. Qed.

(** ** Credential resolution *)

Lemma kms_failures_app tr1 tr2 :
  kms_failures (tr1 ++ tr2) = kms_failures tr1 ++ kms_failures tr2.
Proof.
  induction tr1 as [|ev tr1 IH]; [done|].
  destruct ev as [| | | ? [|]| ? [|] |]; simpl; by rewrite ?IH.
Qed.

Lemma fallback_of_inj key key' : fallback_of key = fallback_of key' -> key = key'.
Proof. unfold fallback_of. intros H. by simplify_eq/=. Qed.

Section Credentials.
Context {P : Platform}.
Variable host : Host.

(** The three ways a call of [_decrypt_with_kms] can go. *)
Lemma decrypt_with_kms_run (c : string) (w : World P) :
  exists evs x',
    snd (_decrypt_with_kms c w) = mkWorld x' (trace w ++ evs)
    /\ match fst (_decrypt_with_kms c w) with
       | Return p =>
           evs = [EvKmsClient c (Return tt); decrypt_log; EvKms c (Return p)]
       | Raise e =>
           evs = [EvKmsClient c (Raise e); decrypt_error_of e]
           \/ evs = [EvKmsClient c (Return tt); decrypt_log; EvKms c (Raise e);
                     decrypt_error_of e]
       end.
Proof.
  unfold _decrypt_with_kms, try_except, bind, kms_client_call, kms_decrypt_call, log, emit.
  destruct (boto3_client_kms P (ext w)) as [[[]|e] x] eqn:Hc; simpl.
  - destruct (kms_decrypt P c x) as [[p|e] x'] eqn:Hd; simpl.
    + eexists _, x'. rewrite <- !app_assoc. split; [reflexivity|done].
    + eexists _, x'. rewrite <- !app_assoc. split; [reflexivity|]. by right.
  - eexists _, x. rewrite <- !app_assoc. split; [reflexivity|]. by left.
Qed.

Lemma resolved_more kms credentials result evs1 evs2 item :
  resolved host kms credentials result evs2 item ->
  resolved host kms credentials result (evs1 ++ evs2) item.
Proof.
  unfold resolved. destruct (credentials !! item.1); [|done].
  destruct kms; [|done]. intros (p & Hp & Hin). exists p. split; [done|].
  apply elem_of_app. by right.
Qed.

Lemma unresolved_cons credentials item rest :
  unresolved host credentials (item :: rest)
  = if is_unresolved host credentials item
    then item.1 :: unresolved host credentials rest
    else unresolved host credentials rest.
Proof. unfold unresolved. simpl. by destruct (is_unresolved host credentials item). Qed.

(** A field that resolved to [v], leaving the events [evs1], followed by
    the loop over the remaining fields. *)
Lemma load_post_cons kms credentials key env_var rest result (w : World P) v evs1 x1 run :
  key ∉ rest.*1 ->
  is_unresolved host credentials (key, env_var) = false ->
  kms_failures evs1 = [] ->
  (forall k, fallback_of k ∈ evs1 -> credentials !! k = None) ->
  (kms = false -> List.filter is_kms_event evs1 = [] /\ x1 = ext w) ->
  (forall evs2 result', result' !! key = Some v ->
     resolved host kms credentials result' (evs1 ++ evs2) (key, env_var)) ->
  load_post host kms credentials rest (<[key := v]> result)
    (mkWorld x1 (trace w ++ evs1)) run ->
  load_post host kms credentials ((key, env_var) :: rest) result w run.
Proof.
  intros Hfresh Hres Hf1 Hfb1 Hk1 Hhead (evs2 & x2 & Hw & Hfb2 & Hk2 & Hout).
  exists (evs1 ++ evs2), x2. simpl trace in Hw. rewrite <- app_assoc in Hw.
  split; [done|]. split; [|split].
  - intros k [Hin|Hin]%elem_of_app; auto.
  - intros Hkms. destruct (Hk1 Hkms) as [Hn1 ->]. destruct (Hk2 Hkms) as [Hn2 ->].
    by rewrite List.filter_app, Hn1, Hn2.
  - rewrite kms_failures_app, Hf1, unresolved_cons, Hres. simpl.
    destruct (fst run) as [result'|e].
    + destruct Hout as (Hdom & Hkeep & Hall & Hun & Hf2).
      split; [|split; [|split; [|done]]].
      * rewrite Hdom, dom_insert_L. simpl.
        by rewrite (comm_L (∪) {[key]}), (assoc_L (∪)).
      * intros k Hk. apply not_elem_of_cons in Hk as [Hne Hk].
        rewrite (Hkeep k Hk). by rewrite lookup_insert_ne.
      * constructor.
        -- apply Hhead. rewrite (Hkeep key Hfresh). by rewrite lookup_insert_eq.
        -- eapply Forall_impl; [exact Hall|]. intros item. apply resolved_more.
    + destruct Hout as [[Hf2 Hmiss]|(Hkms & Hf2 & (item & value & Hin & Hval & Hfail) & evs0 & ->)].
      * by left.
      * right. split; [done|]. split; [done|]. split.
        -- exists item, value. split; [by right|]. split; [done|].
           destruct Hfail as [H|H]; [left|right]; apply elem_of_app; by right.
        -- exists (evs1 ++ evs0). by rewrite app_assoc.
Qed.

Lemma load_loop_run kms credentials (items : list (string * string)) :
  NoDup items.*1 ->
  forall (result : gmap string string) (w : World P),
    load_post host kms credentials items result w
      (load_loop host kms credentials items result w).
Proof.
  induction items as [|[key env_var] rest IH]; intros Hnd result w.
  - exists [], (ext w). simpl. rewrite app_nil_r. destruct w as [x tr].
    split; [done|]. split; [by intros k ?%elem_of_nil|]. split; [done|].
    split; [by rewrite union_empty_r_L|]. by repeat split.
  - rewrite fmap_cons in Hnd. apply NoDup_cons in Hnd as [Hfresh Hnd].
    simpl in Hfresh. simpl load_loop.
    destruct (credentials !! key) as [value|] eqn:Hfile.
    + destruct kms.
      * unfold bind at 1.
        destruct (decrypt_with_kms_run value w) as (evs1 & x1 & Hw1 & Hr1).
        destruct (_decrypt_with_kms value w) as [[p|e] w1]; simpl in Hw1, Hr1; subst w1.
        -- subst evs1. eapply load_post_cons; [done| | | | | |apply (IH Hnd)].
           ++ unfold is_unresolved. simpl. by rewrite Hfile.
           ++ done.
           ++ intros k Hin. exfalso. unfold fallback_of, decrypt_log in Hin.
              repeat (apply elem_of_cons in Hin as [Hin|Hin]; [discriminate Hin|]).
              by apply elem_of_nil in Hin.
           ++ done.
           ++ intros evs2 result' Hp. unfold resolved. simpl. rewrite Hfile.
              exists p. split; [done|]. rewrite !elem_of_cons. auto.
        -- exists evs1, x1. split; [done|]. split; [|split; [done|]].
           ++ intros k Hin. exfalso. unfold fallback_of, decrypt_log, decrypt_error_of in Hin.
              destruct Hr1 as [->| ->];
                repeat (apply elem_of_cons in Hin as [Hin|Hin]; [discriminate Hin|]);
                by apply elem_of_nil in Hin.
           ++ simpl. right. split; [done|]. split; [|split].
              ** by destruct Hr1 as [->| ->].
              ** exists (key, env_var), value. split; [apply elem_of_cons; by left|].
                 split; [done|].
                 destruct Hr1 as [->| ->]; [left|right]; rewrite !elem_of_cons; auto.
              ** destruct Hr1 as [->| ->].
                 --- by exists [EvKmsClient value (Raise e)].
                 --- by exists [EvKmsClient value (Return tt); decrypt_log;
                                EvKms value (Raise e)].
      * unfold bind at 1. simpl.
        apply (load_post_cons false credentials key env_var rest result w value [] (ext w)).
        -- done.
        -- unfold is_unresolved. simpl. by rewrite Hfile.
        -- done.
        -- by intros k ?%elem_of_nil.
        -- done.
        -- intros evs2 result' Hp. unfold resolved. simpl. by rewrite Hfile.
        -- rewrite app_nil_r. destruct w as [x tr]. apply (IH Hnd).
    + destruct (environ host !! env_var) as [v|] eqn:Henv.
      * unfold bind at 1. simpl.
        apply (load_post_cons kms credentials key env_var rest result w v
                 [fallback_of key] (ext w)).
        -- done.
        -- unfold is_unresolved. simpl. by rewrite Hfile, Henv.
        -- done.
        -- intros k Hin. apply list_elem_of_singleton in Hin.
           apply fallback_of_inj in Hin. by subst k.
        -- done.
        -- intros evs2 result' Hp. unfold resolved. simpl. rewrite Hfile, Henv. eauto.
        -- apply (IH Hnd).
      * exists [], (ext w). simpl. rewrite app_nil_r. destruct w as [x tr].
        split; [done|]. split; [by intros k ?%elem_of_nil|]. split; [done|].
        left. split; [done|]. rewrite unresolved_cons. unfold is_unresolved. simpl.
        rewrite Hfile, Henv. eauto.
Qed.
End Credentials.

Lemma failed_decrypt_failures value e evs :
  failed_decrypt value e evs -> e ∈ kms_failures evs.
Proof.
  intros H. induction evs as [|ev evs IH].
  - destruct H as [H|H]; by apply elem_of_nil in H.
  - assert (Hrest : failed_decrypt value e evs -> e ∈ kms_failures (ev :: evs)).
    { intros H'. specialize (IH H').
      destruct ev as [| | | ? [|]| ? [|] |]; simpl; rewrite ?elem_of_cons; auto. }
    destruct H as [H|H]; apply elem_of_cons in H as [<-|H];
      try (simpl; apply elem_of_cons; by left); apply Hrest; [by left|by right].
Qed.

Example load_three_fields_and_env :
  fst (_load_credentials (P := api_up)
         (host_of false [] (Doc three_fields) secret_env) (demo_config false [])
         (fresh (P := api_up) 0%nat))
  = Return (<["access_token_secret" := "env-ats"]> three_fields).
Proof. vm_compute. reflexivity. Qed.

Example load_missing_field :
  fst (_load_credentials (P := api_up)
         (host_of false [] (Doc three_fields) ∅) (demo_config false [])
         (fresh (P := api_up) 0%nat))
  = Raise (ValueError "Missing credential: access_token_secret").
Proof. vm_compute. reflexivity. Qed.

Section CredentialTheorems.
Context {P : Platform}.
Variable host : Host.
Variable config : Config.

Lemma cred_mapping_NoDup : NoDup cred_mapping.*1.
Proof. apply (bool_decide_unpack _). vm_compute. exact I. Qed.

(** C4.  With the credentials file loaded, [_load_credentials] resolves
    each of the four fields by the rule: the file's value when the field is
    in the file, decrypted through KMS exactly when [use_kms] is set;
    otherwise the value of its environment variable when that is set.  When
    it returns, the result has exactly the four fields with these values.
    It raises when a field is in neither source, and a missing-credential
    error always names the first such field of the loop. *)
Theorem load_credentials_resolution (credentials : gmap string string) (w : World P) :
  creds_files host (credentials_file (twitter config)) = Doc credentials ->
  exists evs x',
    snd (_load_credentials host config w) = mkWorld x' (trace w ++ evs)
    /\ (use_kms (twitter config) = false -> List.filter is_kms_event evs = [])
    /\ match fst (_load_credentials host config w) with
       | Return result =>
           dom result = {[ "consumer_key"; "consumer_secret";
                           "access_token_key"; "access_token_secret" ]}
           /\ Forall (resolved host (use_kms (twitter config)) credentials result evs)
                cred_mapping
           /\ unresolved host credentials cred_mapping = []
       | Raise e =>
           (exists key rest,
              unresolved host credentials cred_mapping = key :: rest
              /\ e = ValueError ("Missing credential: " +:+ key))
           \/ (use_kms (twitter config) = true
               /\ exists item value,
                    item ∈ cred_mapping
                    /\ credentials !! item.1 = Some value
                    /\ failed_decrypt value e evs)
       end
    /\ (use_kms (twitter config) = false ->
        unresolved host credentials cred_mapping = [] ->
        is_raise (fst (_load_credentials host config w)) = false).
Proof.
  intros Hfile. unfold _load_credentials. rewrite Hfile.
  destruct (load_loop_run host (use_kms (twitter config)) credentials cred_mapping
              cred_mapping_NoDup ∅ w) as (evs & x' & Hw & _ & Hk & Hout).
  exists evs, x'. split; [done|]. split; [intros Hkms; by apply Hk|].
  destruct (fst (load_loop host (use_kms (twitter config)) credentials cred_mapping ∅ w))
    as [result|e].
  - destruct Hout as (Hdom & _ & Hall & Hun & _). split; [|done].
    split; [|done]. rewrite Hdom, dom_empty_L, union_empty_l_L. simpl.
    by rewrite !union_empty_r_L, !(assoc_L (∪)).
  - split.
    + destruct Hout as [[_ Hmiss]|(Hkms & _ & Hfail & _)]; [by left|by right].
    + intros Hkms Hun. destruct Hout as [[_ (key & rest & Hm & _)]|(Hk' & _)]; congruence.
Qed.

(** C8.  When the credentials file does not exist, [_load_credentials]
    writes one error record for the file and re-raises the
    [FileNotFoundError] of [open]: nothing else happens, whatever the
    environment holds; no field is taken from its environment variable. *)
Theorem load_credentials_no_file (w : World P) :
  creds_files host (credentials_file (twitter config)) = NoFile ->
  _load_credentials host config w
  = (Raise (FileNotFoundError_open (credentials_file (twitter config))),
     mkWorld (ext w)
       (trace w ++ [EvLog ERROR ("Credentials file " +:+ credentials_file (twitter config)
                                 +:+ " not found")]))
  /\ forall key,
       fallback_of key
       ∉ [EvLog ERROR ("Credentials file " +:+ credentials_file (twitter config)
                       +:+ " not found")].
Proof.
  intros Hfile. split.
  - unfold _load_credentials. by rewrite Hfile.
  - intros key Hin. apply list_elem_of_singleton in Hin. discriminate Hin.
Qed.

(** C9.  With KMS decryption enabled, when the decryption of the file's
    value of a field fails during [_load_credentials], the error of that
    failure is what [_load_credentials] raises, right after the error
    record of [_decrypt_with_kms]; the field is not taken from its
    environment variable. *)
Theorem load_credentials_decrypt_failure (credentials : gmap string string)
    (w : World P) key env_var value e r x' evs :
  creds_files host (credentials_file (twitter config)) = Doc credentials ->
  use_kms (twitter config) = true ->
  (key, env_var) ∈ cred_mapping ->
  credentials !! key = Some value ->
  _load_credentials host config w = (r, mkWorld x' (trace w ++ evs)) ->
  failed_decrypt value e evs ->
  r = Raise e
  /\ (fallback_of key ∉ evs)
  /\ exists evs0, evs = evs0 ++ [decrypt_error_of e].
Proof.
  intros Hfile Hkms Hin Hval Hrun Hfail.
  unfold _load_credentials in Hrun. rewrite Hfile in Hrun.
  destruct (load_loop_run host (use_kms (twitter config)) credentials cred_mapping
              cred_mapping_NoDup ∅ w) as (evs' & x'' & Hw & Hfb & _ & Hout).
  rewrite Hrun in Hw, Hout. simpl in Hw, Hout.
  injection Hw as _ Hevs. apply app_inv_head in Hevs. subst evs'.
  apply failed_decrypt_failures in Hfail.
  split; [|split].
  - destruct r as [result|e0].
    + destruct Hout as (_ & _ & _ & _ & Hnone). rewrite Hnone in Hfail.
      by apply elem_of_nil in Hfail.
    + destruct Hout as [[Hnone _]|(_ & Hone & _)].
      * rewrite Hnone in Hfail. by apply elem_of_nil in Hfail.
      * rewrite Hone in Hfail. apply list_elem_of_singleton in Hfail. by subst.
  - intros Hfall. apply Hfb in Hfall. congruence.
  - destruct r as [result|e0].
    + destruct Hout as (_ & _ & _ & _ & Hnone). rewrite Hnone in Hfail.
      by apply elem_of_nil in Hfail.
    + destruct Hout as [[Hnone _]|(_ & Hone & _ & Hend)].
      * rewrite Hnone in Hfail. by apply elem_of_nil in Hfail.
      * rewrite Hone in Hfail. apply list_elem_of_singleton in Hfail. by subst.
Qed.
End CredentialTheorems.

Lemma load_credentials_resolution_witness :
  let host := host_of false [] (Doc three_fields) secret_env in
  let config := demo_config false [] in
  let w := fresh (P := api_up) 0%nat in
  creds_files host (credentials_file (twitter config)) = Doc three_fields
  /\ exists evs x',
       snd (_load_credentials host config w) = mkWorld x' (trace w ++ evs)
       /\ (use_kms (twitter config) = false -> List.filter is_kms_event evs = [])
       /\ match fst (_load_credentials host config w) with
          | Return result =>
              dom result = {[ "consumer_key"; "consumer_secret";
                              "access_token_key"; "access_token_secret" ]}
              /\ Forall (resolved host (use_kms (twitter config)) three_fields result evs)
                   cred_mapping
              /\ unresolved host three_fields cred_mapping = []
          | Raise e =>
              (exists key rest,
                 unresolved host three_fields cred_mapping = key :: rest
                 /\ e = ValueError ("Missing credential: " +:+ key))
              \/ (use_kms (twitter config) = true
                  /\ exists item value,
                       item ∈ cred_mapping
                       /\ three_fields !! item.1 = Some value
                       /\ failed_decrypt value e evs)
          end
       /\ (use_kms (twitter config) = false ->
           unresolved host three_fields cred_mapping = [] ->
           is_raise (fst (_load_credentials host config w)) = false).
Proof.
  intros host config w.
  assert (H : creds_files host (credentials_file (twitter config)) = Doc three_fields)
    by reflexivity.
  split; [exact H|].
  exact (load_credentials_resolution host config three_fields w H).
Defined.

Lemma load_credentials_no_file_witness :
  let host := host_of false [] NoFile all_env in
  let config := demo_config false [] in
  let w := fresh (P := api_up) 0%nat in
  creds_files host (credentials_file (twitter config)) = NoFile
  /\ _load_credentials host config w
     = (Raise (FileNotFoundError_open (credentials_file (twitter config))),
        mkWorld (ext w)
          (trace w ++ [EvLog ERROR ("Credentials file " +:+ credentials_file (twitter config)
                                    +:+ " not found")]))
  /\ forall key,
       fallback_of key
       ∉ [EvLog ERROR ("Credentials file " +:+ credentials_file (twitter config)
                       +:+ " not found")].
Proof.
  intros host config w.
  assert (H : creds_files host (credentials_file (twitter config)) = NoFile)
    by reflexivity.
  split; [exact H|].
  exact (load_credentials_no_file host config w H).
Defined.

Lemma load_credentials_decrypt_failure_witness :
  let host := host_of true [] (Doc garbled_fields) all_env in
  let config := demo_config true [] in
  let w := fresh (P := api_up) 0%nat in
  let evs := [EvKmsClient "ck" (Return tt); decrypt_log; EvKms "ck" (Return "plain-ck");
              EvKmsClient "garbled" (Return tt); decrypt_log;
              EvKms "garbled" (Raise invalid_ciphertext);
              decrypt_error_of invalid_ciphertext] in
  creds_files host (credentials_file (twitter config)) = Doc garbled_fields
  /\ use_kms (twitter config) = true
  /\ ("consumer_secret", "TWITTER_CONSUMER_SECRET") ∈ cred_mapping
  /\ garbled_fields !! "consumer_secret" = Some "garbled"
  /\ _load_credentials host config w
     = (Raise invalid_ciphertext, mkWorld (P := api_up) 0%nat (trace w ++ evs))
  /\ failed_decrypt "garbled" invalid_ciphertext evs
  /\ Raise (A := gmap string string) invalid_ciphertext = Raise invalid_ciphertext
  /\ (fallback_of "consumer_secret" ∉ evs)
  /\ exists evs0, evs = evs0 ++ [decrypt_error_of invalid_ciphertext].
Proof.
  intros host config w evs.
  assert (H1 : creds_files host (credentials_file (twitter config)) = Doc garbled_fields)
    by reflexivity.
  assert (H2 : use_kms (twitter config) = true) by reflexivity.
  assert (H3 : ("consumer_secret", "TWITTER_CONSUMER_SECRET") ∈ cred_mapping).
  { unfold cred_mapping. rewrite !elem_of_cons. auto. }
  assert (H4 : garbled_fields !! "consumer_secret" = Some "garbled")
    by (vm_compute; reflexivity).
  assert (H5 : _load_credentials host config w
               = (Raise invalid_ciphertext,
                  mkWorld (P := api_up) 0%nat (trace w ++ evs)))
    by (vm_compute; reflexivity).
  assert (H6 : failed_decrypt "garbled" invalid_ciphertext evs).
  { right. unfold evs. rewrite !elem_of_cons. auto 10. }
  split; [exact H1|]. split; [exact H2|]. split; [exact H3|]. split; [exact H4|].
  split; [exact H5|]. split; [exact H6|].
  exact (load_credentials_decrypt_failure host config garbled_fields w
           "consumer_secret" "TWITTER_CONSUMER_SECRET" "garbled" invalid_ciphertext
           (Raise invalid_ciphertext) 0%nat evs H1 H2 H3 H4 H5 H6).
Defined.

(** ** Sending *)

Lemma str_bool_false s : str_bool s = false <-> s = EmptyString.
Proof. by destruct s. Qed.

Lemma len_0 s : len s = 0 <-> s = EmptyString.
Proof. unfold len. destruct s; simpl; split; intros H; try done; lia. Qed.

Lemma len_text_of_length n : len (text_of_length n) = Z.of_nat n.
Proof. unfold len. f_equal. induction n as [|n IH]; simpl; by rewrite ?IH. Qed.

Section Send.
Context {P : Platform}.
Variable self : TwitterBot.

Lemma send_tweet_rejects (tweet_text : string) (w : World P) :
  tweet_text = EmptyString \/ 280 < len tweet_text ->
  send_tweet self tweet_text w = (Raise validation_error, w).
Proof.
  intros H. unfold send_tweet.
  replace (negb (str_bool tweet_text) || (280 <? len tweet_text)) with true; [done|].
  symmetry. apply orb_true_iff. destruct H as [->|H]; [by left|right].
  by apply Z.ltb_lt.
Qed.

Lemma send_tweet_accepts (tweet_text : string) (w : World P) :
  tweet_text <> EmptyString -> len tweet_text <= 280 ->
  exists b w', send_tweet self tweet_text w = (Return b, w').
Proof.
  intros Hne Hlen. unfold send_tweet.
  replace (negb (str_bool tweet_text) || (280 <? len tweet_text)) with false.
  - unfold try_except, bind.
    destruct (twitter_client self) as [client|].
    + destruct (_retry_with_backoff _ _ w) as [[v|e] w1]; simpl; eauto.
    + simpl. eauto.
  - symmetry. apply orb_false_iff. split.
    + apply negb_false_iff. destruct (str_bool tweet_text) eqn:Hb; [done|].
      by apply str_bool_false in Hb.
    + by apply Z.ltb_ge.
Qed.

(** C5.  [send_tweet] raises exactly when the text is empty or longer than
    280 characters; what it raises then is the validation error, and the
    world is left as it was: the retry executor and the posting operation
    are not invoked.  Texts of length 0 and 281 are rejected; texts of
    length 1 and 280 pass, whatever the posting operation then does. *)
Theorem send_tweet_validation (tweet_text : string) (w : World P) :
  (is_raise (fst (send_tweet self tweet_text w)) = true
   <-> tweet_text = EmptyString \/ 280 < len tweet_text)
  /\ (is_raise (fst (send_tweet self tweet_text w)) = true ->
      send_tweet self tweet_text w = (Raise validation_error, w))
  /\ (len tweet_text = 0 \/ len tweet_text = 281 ->
      send_tweet self tweet_text w = (Raise validation_error, w))
  /\ (len tweet_text = 1 \/ len tweet_text = 280 ->
      is_raise (fst (send_tweet self tweet_text w)) = false).
Proof.
  assert (Hiff : is_raise (fst (send_tweet self tweet_text w)) = true
                 <-> tweet_text = EmptyString \/ 280 < len tweet_text).
  { split.
    - intros Hr. destruct (decide (tweet_text = EmptyString)) as [|Hne]; [by left|].
      destruct (decide (280 < len tweet_text)) as [|Hle]; [by right|].
      destruct (send_tweet_accepts tweet_text w Hne ltac:(lia)) as (b & w' & Heq).
      rewrite Heq in Hr. discriminate.
    - intros H. by rewrite (send_tweet_rejects tweet_text w H). }
  split; [exact Hiff|]. split; [|split].
  - intros Hr. apply send_tweet_rejects. by apply Hiff.
  - intros [H|H]; apply send_tweet_rejects; [left; by apply len_0|right; lia].
  - intros H. apply not_true_is_false. intros Hr.
    apply Hiff in Hr as [->|Hr]; [|lia]. unfold len in H. simpl in H. lia.
Qed.

(** C6.  For a text that passes validation, [send_tweet] returns [True]
    when the retry executor returns and [False], without raising, when the
    retry executor raises. *)
Theorem send_tweet_outcome (client : Twython) (tweet_text : string) (w : World P) :
  twitter_client self = Some client ->
  tweet_text <> EmptyString ->
  len tweet_text <= 280 ->
  match _retry_with_backoff (retry (config self))
          (update_status P client tweet_text) w with
  | (Return _, w1) =>
      send_tweet self tweet_text w
      = (Return true,
         mkWorld (ext w1)
           (trace w1 ++ [EvLog INFO ("Tweet sent successfully: "
                                     +:+ substring 0 50 tweet_text +:+ "...")]))
  | (Raise e, w1) =>
      send_tweet self tweet_text w
      = (Return false,
         mkWorld (ext w1) (trace w1 ++ [EvLog ERROR ("Failed to send tweet: "
                                                     +:+ exn_str e)]))
  end.
Proof.
  intros Hclient Hne Hlen. unfold send_tweet.
  replace (negb (str_bool tweet_text) || (280 <? len tweet_text)) with false.
  - rewrite Hclient. unfold try_except, bind.
    by destruct (_retry_with_backoff _ _ w) as [[v|e] w1].
  - symmetry. apply orb_false_iff. split.
    + apply negb_false_iff. destruct (str_bool tweet_text) eqn:Hb; [done|].
      by apply str_bool_false in Hb.
    + by apply Z.ltb_ge.
Qed.

(** C10.  With no candidate message configured, [send_random_tweet] writes
    one error record and returns [False]: nothing is drawn, validated or
    posted, and nothing is raised. *)
Theorem send_random_tweet_no_tweets (w : World P) :
  tweets (bot (config self)) = [] ->
  send_random_tweet self w
  = (Return false, mkWorld (ext w) (trace w ++ [EvLog ERROR "No tweets configured"])).
Proof. intros Hnone. unfold send_random_tweet. by rewrite Hnone. Qed.
End Send.

Section Handler.
Context {P : Platform} {E C : Type}.
Variable host : Host.

(** C7.  For every event, context, host and behaviour of the services,
    [handler] returns a response, never an exception; its status code is
    200 when the bot was built and [send_random_tweet] returned [True], and
    500 in every other case, and its body carries the same flag. *)
Theorem handler_total (event : E) (context : C) (w : World P) :
  exists resp w',
    handler host event context w = (Return resp, w')
    /\ (statusCode resp = 200 \/ statusCode resp = 500)
    /\ (statusCode resp = 200
        <-> exists bot w1 w2,
              TwitterBot_init host "config.json" w = (Return bot, w1)
              /\ send_random_tweet bot w1 = (Return true, w2))
    /\ head (body resp) = Some ("success"%string, JBool (statusCode resp =? 200)).
Proof.
  unfold handler, try_except, bind at 1.
  destruct (TwitterBot_init host "config.json" w) as [[bot|e] w1] eqn:Hinit.
  - unfold bind. destruct (send_random_tweet bot w1) as [[[|]|e] w2] eqn:Hsend.
    + eexists _, _. split; [reflexivity|]. simpl. split; [by left|]. split; [|done].
      split; [|done]. intros _. by exists bot, w1, w2.
    + eexists _, _. split; [reflexivity|]. simpl. split; [by right|]. split; [|done].
      split; [done|]. intros (bot' & w1' & w2' & Heq & Hs).
      injection Heq as <- <-. rewrite Hsend in Hs. discriminate.
    + eexists _, _. split; [reflexivity|]. simpl. split; [by right|]. split; [|done].
      split; [done|]. intros (bot' & w1' & w2' & Heq & Hs).
      injection Heq as <- <-. rewrite Hsend in Hs. discriminate.
  - eexists _, _. split; [reflexivity|]. simpl. split; [by right|]. split; [|done].
    split; [done|]. intros (bot' & w1' & w2' & Heq & _). discriminate.
Qed.
End Handler.

(** ** The bot on concrete inputs *)

Example send_tweet_lengths :
  let up n := fst (send_tweet (P := api_up) (demo_bot []) (text_of_length n)
                     (fresh (P := api_up) 0%nat)) in
  let down n := fst (send_tweet (P := api_down) (demo_bot []) (text_of_length n)
                       (fresh (P := api_down) 0%nat)) in
  up 0%nat = Raise validation_error
  /\ up 281%nat = Raise validation_error
  /\ up 1%nat = Return true
  /\ up 280%nat = Return true
  /\ down 0%nat = Raise validation_error
  /\ down 281%nat = Raise validation_error
  /\ down 1%nat = Return false
  /\ down 280%nat = Return false.
Proof. vm_compute. done. Qed.

Lemma send_tweet_outcome_witness :
  let self := demo_bot ["hello"] in
  let w := fresh (P := api_down_for 2) 0%nat in
  twitter_client self = Some demo_client
  /\ "hello" <> EmptyString
  /\ len "hello" <= 280
  /\ match _retry_with_backoff (retry (config self))
             (update_status (api_down_for 2) demo_client "hello") w with
     | (Return _, w1) =>
         send_tweet self "hello" w
         = (Return true,
            mkWorld (ext w1)
              (trace w1 ++ [EvLog INFO ("Tweet sent successfully: "
                                        +:+ substring 0 50 "hello" +:+ "...")]))
     | (Raise e, w1) =>
         send_tweet self "hello" w
         = (Return false,
            mkWorld (ext w1) (trace w1 ++ [EvLog ERROR ("Failed to send tweet: "
                                                        +:+ exn_str e)]))
     end.
Proof.
  intros self w.
  assert (H1 : twitter_client self = Some demo_client) by reflexivity.
  assert (H2 : "hello" <> EmptyString) by discriminate.
  assert (H3 : len "hello" <= 280) by (vm_compute; discriminate).
  split; [exact H1|]. split; [exact H2|]. split; [exact H3|].
  exact (send_tweet_outcome self demo_client "hello" w H1 H2 H3).
Defined.

Example send_tweet_absorbs_exhaustion :
  fst (send_tweet (P := api_down) (demo_bot []) "hello" (fresh (P := api_down) 0%nat))
  = Return false
  /\ fst (_retry_with_backoff (retry (config (demo_bot [])))
            (update_status api_down demo_client "hello") (fresh (P := api_down) 0%nat))
     = Raise service_unavailable.
Proof. vm_compute. done. Qed.

Lemma send_random_tweet_no_tweets_witness :
  let self := demo_bot [] in
  let w := fresh (P := api_up) 0%nat in
  tweets (bot (config self)) = []
  /\ send_random_tweet self w
     = (Return false, mkWorld (ext w) (trace w ++ [EvLog ERROR "No tweets configured"])).
Proof.
  intros self w.
  assert (H : tweets (bot (config self)) = []) by reflexivity.
  split; [exact H|].
  exact (send_random_tweet_no_tweets self w H).
Defined.

Example handler_success :
  fst (handler (P := api_up) (host_of false ["hello"] (Doc full_fields) ∅) tt tt
         (fresh (P := api_up) 0%nat))
  = Return {| statusCode := 200;
              body := [ ("success"%string, JBool true);
                        ("message"%string, JStr "Tweet sent successfully") ] |}.
Proof. vm_compute. reflexivity. Qed.

Example handler_without_credentials_file :
  fst (handler (P := api_up) (host_of false ["hello"] NoFile all_env) tt tt
         (fresh (P := api_up) 0%nat))
  = Return {| statusCode := 500;
              body := [ ("success"%string, JBool false);
                        ("error"%string,
                         JStr "[Errno 2] No such file or directory: 'credentials.json'") ] |}.
Proof. vm_compute. reflexivity. Qed.

Example handler_api_down :
  fst (handler (P := api_down) (host_of false ["hello"] (Doc full_fields) ∅) tt tt
         (fresh (P := api_down) 0%nat))
  = Return {| statusCode := 500;
              body := [ ("success"%string, JBool false);
                        ("message"%string, JStr "Failed to send tweet") ] |}.
Proof. vm_compute. reflexivity. Qed.

Example handler_empty_tweet :
  fst (handler (P := api_up) (host_of false [""] (Doc full_fields) ∅) tt tt
         (fresh (P := api_up) 0%nat))
  = Return {| statusCode := 500;
              body := [ ("success"%string, JBool false);
                        ("error"%string, JStr "Tweet text must be 1-280 characters") ] |}.
Proof. vm_compute. reflexivity. Qed.

(** ** More on the retry executor *)

Lemma total_bound (D : Q) (l : list number) :
  Forall (fun d => (0 <= seconds d <= D)%Q) l ->
  (0 <= total l <= inject_Z (Z.of_nat (length l)) * D)%Q.
Proof.
  induction 1 as [|d l [Hlo Hhi] _ [IHlo IHhi]].
  - simpl. split; [apply Qle_refl|]. rewrite Qmult_0_l. apply Qle_refl.
  - simpl total. split.
    + replace 0%Q with (0 + 0)%Q by reflexivity. by apply Qplus_le_compat.
    + rewrite length_cons, Nat2Z.inj_succ. unfold Z.succ.
      rewrite inject_Z_plus, Qmult_plus_distr_l, Qmult_1_l, Qplus_comm.
      rewrite (Qplus_comm (inject_Z (Z.of_nat (length l)) * D)).
      rewrite Qplus_comm. rewrite (Qplus_comm D).
      rewrite Qplus_comm. by apply Qplus_le_compat.
Qed.

Section RetryBounds.
Context {P : Platform} {A : Type}.
Variable rc : RetryConfig.
Variable func : Ext P -> result A * Ext P.

(** What every run of the loop over the attempts [k .. k + m - 1] keeps. *)
Lemma retry_loop_bounds (m : nat) : forall (k : nat) w,
  (m = 0%nat \/ Z.of_nat (k + m) = max_attempts rc) ->
  exists evs,
    snd (retry_loop rc func (map Z.of_nat (seq k m)) w)
    = mkWorld (ext_after func (calls evs) (ext w)) (trace w ++ evs)
    /\ (calls evs <= m)%nat
    /\ (1 <= m -> 1 <= calls evs)%nat
    /\ length (sleeps evs) = (calls evs - 1)%nat
    /\ Forall (fun d => sleep_ok P d = true /\ exists i, delay P rc i = Return d)
         (sleeps evs).
Proof.
  induction m as [|m IH]; intros k w Hal.
  - exists []. simpl. rewrite app_nil_r. destruct w. repeat split; try (unfold calls; simpl; lia). constructor.
  - destruct Hal as [Hal|Hal]; [lia|].
    simpl seq. simpl map.
    destruct (fst (func (ext w))) as [v|e] eqn:He.
    + rewrite (retry_step_success rc func _ _ w v He).
      exists [EvCall]. simpl. repeat split; try (unfold calls; simpl; lia). constructor.
    + destruct (decide (Z.of_nat k = max_attempts rc - 1)) as [Hlast|Hnot].
      * rewrite (retry_step_last rc func _ _ w e He Hlast).
        exists [EvCall; error_of rc e]. simpl. rewrite <- app_assoc.
        repeat split; try (unfold calls; simpl; lia). constructor.
      * destruct (delay P rc (Z.of_nat k)) as [d|e'] eqn:Hd.
        -- destruct (sleep_ok P d) eqn:Hok.
           ++ rewrite (retry_step_sleep rc func _ _ w e d He Hnot Hd Hok).
              set (w1 := mkWorld _ _).
              destruct (IH (S k) w1) as (evs & Hw & Hle & Hge & Hlen & Hall); [right; lia|].
              specialize (Hge ltac:(lia)).
              exists ([EvCall; warning_of P (Z.of_nat k) e d; EvSleep d] ++ evs).
              rewrite Hw. unfold w1. simpl ext. simpl trace.
              rewrite calls_app, sleeps_app.
              change (calls [EvCall; warning_of P (Z.of_nat k) e d; EvSleep d]) with 1%nat.
              change (sleeps [EvCall; warning_of P (Z.of_nat k) e d; EvSleep d]) with [d].
              split; [|split; [|split; [|split]]].
              ** simpl. by rewrite <- !app_assoc.
              ** lia.
              ** lia.
              ** simpl. lia.
              ** simpl. constructor; [|done]. split; [done|]. by exists (Z.of_nat k).
           ++ rewrite (retry_step_rejected rc func _ _ w e d He Hnot Hd Hok).
              exists [EvCall; warning_of P (Z.of_nat k) e d]. simpl. rewrite <- app_assoc.
              repeat split; try (unfold calls; simpl; lia). constructor.
        -- rewrite (retry_step_no_delay rc func _ _ w e e' He Hnot Hd).
           exists [EvCall]. simpl.
           repeat split; try (unfold calls; simpl; lia). constructor.
Qed.

(** X1.  Whatever the operation does, a run of [_retry_with_backoff] invokes
    it at most [max_attempts] times, the services are left as that many
    invocations leave them, and the run sleeps once between two consecutive
    invocations and at no other time. *)
Theorem retry_attempts_bounded (w : World P) :
  exists evs,
    snd (_retry_with_backoff rc func w)
    = mkWorld (ext_after func (calls evs) (ext w)) (trace w ++ evs)
    /\ (calls evs <= Z.to_nat (max_attempts rc))%nat
    /\ length (sleeps evs) = (calls evs - 1)%nat.
Proof.
  destruct (retry_loop_bounds (Z.to_nat (max_attempts rc)) 0%nat w)
    as (evs & Hw & Hle & _ & Hlen & _); [lia|].
  exists evs. by repeat split.
Qed.

(** X2.  When [max_delay] is a finite number [D], a run of
    [_retry_with_backoff] sleeps at most [max_attempts - 1] times, and the
    seconds it sleeps in all lie between zero and the number of its sleeps
    times [D]. *)
Theorem retry_total_sleep_bounded (D : Q) (w : World P) :
  value (max_delay rc) = Fin D ->
  exists evs,
    trace (snd (_retry_with_backoff rc func w)) = trace w ++ evs
    /\ (length (sleeps evs) <= Z.to_nat (max_attempts rc) - 1)%nat
    /\ (0 <= total (sleeps evs)
           <= inject_Z (Z.of_nat (length (sleeps evs))) * D)%Q.
Proof.
  intros HD.
  destruct (retry_loop_bounds (Z.to_nat (max_attempts rc)) 0%nat w)
    as (evs & Hw & Hle & _ & Hlen & Hall); [lia|].
  exists evs. unfold _retry_with_backoff, range. rewrite Hw. split; [done|].
  split; [lia|]. apply total_bound.
  eapply Forall_impl; [exact Hall|]. simpl. intros d [Hok [i Hd]].
  assert (Hnn : num_le (Int 0) d = true) by (by apply (sleep_ok_nonneg P)).
  assert (Hcap : num_le d (max_delay rc) = true).
  { unfold delay in Hd.
    destruct (py_pow P (backoff_factor rc) i) as [x|e]; [|discriminate].
    injection Hd as <-. apply py_min_le; [unfold is_nan; by rewrite HD|].
    by apply (sleep_ok_not_nan P). }
  unfold num_le in Hnn, Hcap. rewrite HD in Hcap. unfold seconds.
  destruct (value d) as [| | |q]; try done. split.
  - by apply (fval_le_Qle (inject_Z 0) q).
  - by apply fval_le_Qle.
Qed.
End RetryBounds.

Section RetryEdges.
Context {P : Platform} {A : Type}.
Variable rc : RetryConfig.
Variable func : Ext P -> result A * Ext P.

Lemma retry_no_attempts (w : World P) :
  max_attempts rc <= 0 -> _retry_with_backoff rc func w = (Return None, w).
Proof.
  intros HN. unfold _retry_with_backoff, range.
  replace (Z.to_nat (max_attempts rc)) with 0%nat by lia. done.
Qed.

(** X3.  When the operation fails [j + 1] times in a row, none of these
    attempts being the last allowed one, and [time.sleep] accepts the first
    [j] delays but not the next, the executor raises the error of
    [time.sleep] in place of the operation's: the operation has been invoked
    [j + 1] times and is not invoked again. *)
Theorem retry_sleep_rejected (j : nat) (d : number) (w : World P) :
  Z.of_nat j < max_attempts rc - 1 ->
  (forall i, (i <= j)%nat -> is_raise (outcome func i (ext w)) = true) ->
  (forall i, (i < j)%nat -> delay_ok P rc (Z.of_nat i) = true) ->
  delay P rc (Z.of_nat j) = Return d ->
  sleep_ok P d = false ->
  exists evs,
    _retry_with_backoff rc func w
    = (Raise (sleep_error P d),
       mkWorld (ext_after func (S j) (ext w)) (trace w ++ evs))
    /\ calls evs = S j
    /\ map Return (sleeps evs) = map (delay P rc) (range (Z.of_nat j)).
Proof.
  intros Hj Hfail Hok Hd Hrej.
  set (rest := map Z.of_nat (seq (S j) (Z.to_nat (max_attempts rc) - S j))).
  assert (Hsplit : range (max_attempts rc)
                   = map Z.of_nat (seq 0 j) ++ Z.of_nat j :: rest).
  { unfold range, rest.
    replace (Z.to_nat (max_attempts rc))
      with (j + S (Z.to_nat (max_attempts rc) - S j))%nat at 1 by lia.
    by rewrite seq_app, map_app. }
  destruct (retry_failing_prefix rc func j 0%nat (Z.of_nat j :: rest) w)
    as (evs & Hrun & Hc & Hs & _).
  { intros i Hi. apply Hfail. lia. }
  { intros i Hi. lia. }
  { intros i Hi. apply Hok. lia. }
  set (w1 := mkWorld (ext_after func j (ext w)) (trace w ++ evs)) in Hrun.
  pose proof (Hfail j ltac:(lia)) as Hlast. unfold outcome in Hlast.
  change (ext_after func j (ext w)) with (ext w1) in Hlast.
  destruct (fst (func (ext w1))) as [v|e] eqn:He; [discriminate|].
  exists (evs ++ [EvCall; warning_of P (Z.of_nat j) e d]).
  split; [|split].
  - assert (Hne : Z.of_nat j <> max_attempts rc - 1) by lia.
    unfold _retry_with_backoff. rewrite Hsplit, Hrun.
    rewrite (retry_step_rejected rc func _ _ w1 e d He Hne Hd Hrej).
    rewrite ext_after_S. unfold w1. simpl ext. simpl trace.
    by rewrite <- !app_assoc.
  - rewrite calls_app, Hc.
    change (calls [EvCall; warning_of P (Z.of_nat j) e d]) with 1%nat. lia.
  - rewrite sleeps_app, range_nat. simpl. by rewrite app_nil_r.
Qed.

(** X4.  With an integer backoff factor of at least 1 the delay never
    decreases from one retry to a later one, whatever [max_delay] is. *)
Theorem delay_monotone (b i j : Z) :
  backoff_factor rc = Int b -> 1 <= b -> 0 <= i <= j ->
  exists di dj,
    delay P rc i = Return di /\ delay P rc j = Return dj /\ num_le di dj = true.
Proof.
  intros Hb Hb1 Hij. unfold delay, py_pow. rewrite Hb.
  eexists _, _. split; [reflexivity|]. split; [reflexivity|].
  assert (Hpow : fval_le (value (Int (b ^ i))) (value (Int (b ^ j))) = true).
  { apply fval_le_int. apply Z.pow_le_mono_r; lia. }
  unfold py_min, num_le, num_lt.
  destruct (fval_lt (value (max_delay rc)) (value (Int (b ^ i)))) eqn:Hi.
  - rewrite (fval_lt_le_trans _ _ _ Hi Hpow).
    apply fval_le_refl. by apply fval_lt_not_nan in Hi as [? _].
  - destruct (fval_lt (value (max_delay rc)) (value (Int (b ^ j)))) eqn:Hj; [|done].
    apply fval_not_lt_le; [done| |done]. by apply fval_lt_not_nan in Hj as [? _].
Qed.

(** X5.  With an integer backoff factor of at least 2 the delay is the cap
    [max_delay] at every retry index that is at least [max_delay]. *)
Theorem delay_saturates (b i : Z) :
  backoff_factor rc = Int b -> 2 <= b -> 0 <= i ->
  num_le (max_delay rc) (Int i) = true ->
  delay P rc i = Return (max_delay rc).
Proof.
  intros Hb Hb2 Hi HD. unfold delay, py_pow. rewrite Hb.
  unfold py_min, num_lt.
  replace (fval_lt (value (max_delay rc)) (value (Int (b ^ i)))) with true; [done|].
  symmetry. unfold num_le in HD. simpl in *.
  assert (Hlt : i < b ^ i).
  { assert (i < 2 ^ i) by (apply Z.pow_gt_lin_r; lia).
    assert (2 ^ i <= b ^ i) by (apply Z.pow_le_mono_l; lia). lia. }
  destruct (value (max_delay rc)) as [| | |q]; try done. simpl in *.
  assert (Hqi : (q <= inject_Z i)%Q) by (by apply fval_le_Qle).
  assert (Hq : (q < inject_Z (b ^ i))%Q).
  { apply Qle_lt_trans with (inject_Z i); [done|]. by rewrite <- Zlt_Qlt. }
  by rewrite (proj1 (Qlt_alt _ _) Hq).
Qed.
End RetryEdges.

Lemma retry_sleep_rejected_witness :
  let rc := policy 3 (-2) 10 in
  let func := post_hello api_down in
  let w := fresh (P := api_down) 0%nat in
  Z.of_nat 1 < max_attempts rc - 1
  /\ (forall i, (i <= 1)%nat -> is_raise (outcome func i (ext w)) = true)
  /\ (forall i, (i < 1)%nat -> delay_ok api_down rc (Z.of_nat i) = true)
  /\ delay api_down rc (Z.of_nat 1) = Return (Int (-2))
  /\ sleep_ok api_down (Int (-2)) = false
  /\ exists evs,
       _retry_with_backoff rc func w
       = (Raise (sleep_error api_down (Int (-2))),
          mkWorld (ext_after func 2 (ext w)) (trace w ++ evs))
       /\ calls evs = 2%nat
       /\ map Return (sleeps evs) = map (delay api_down rc) (range (Z.of_nat 1)).
Proof.
  intros rc func w.
  assert (H1 : Z.of_nat 1 < max_attempts rc - 1) by (simpl; lia).
  assert (H2 : forall i, (i <= 1)%nat -> is_raise (outcome func i (ext w)) = true).
  { intros i Hi. destruct i as [|[|i]]; [reflexivity|reflexivity|lia]. }
  assert (H3 : forall i, (i < 1)%nat -> delay_ok api_down rc (Z.of_nat i) = true).
  { intros i Hi. destruct i as [|i]; [reflexivity|lia]. }
  assert (H4 : delay api_down rc (Z.of_nat 1) = Return (Int (-2))) by reflexivity.
  assert (H5 : sleep_ok api_down (Int (-2)) = false) by reflexivity.
  split; [exact H1|]. split; [exact H2|]. split; [exact H3|]. split; [exact H4|].
  split; [exact H5|].
  exact (retry_sleep_rejected rc func 1 (Int (-2)) w H1 H2 H3 H4 H5).
Defined.

Lemma retry_total_sleep_bounded_witness :
  let rc := policy 3 2 10 in
  let func := post_hello api_down in
  let w := fresh (P := api_down) 0%nat in
  value (max_delay rc) = Fin (inject_Z 10)
  /\ exists evs,
       trace (snd (_retry_with_backoff rc func w)) = trace w ++ evs
       /\ (length (sleeps evs) <= Z.to_nat (max_attempts rc) - 1)%nat
       /\ (0 <= total (sleeps evs)
              <= inject_Z (Z.of_nat (length (sleeps evs))) * inject_Z 10)%Q.
Proof.
  intros rc func w.
  assert (H : value (max_delay rc) = Fin (inject_Z 10)) by reflexivity.
  split; [exact H|].
  exact (retry_total_sleep_bounded rc func (inject_Z 10) w H).
Defined.

Lemma delay_monotone_witness :
  let rc := {| max_attempts := 5; backoff_factor := Int 2;
               max_delay := Float (Fin (5 # 2)) |} in
  backoff_factor rc = Int 2 /\ 1 <= 2 /\ 0 <= 1 <= 3
  /\ exists di dj,
       delay api_down rc 1 = Return di /\ delay api_down rc 3 = Return dj
       /\ num_le di dj = true.
Proof.
  intros rc.
  assert (H1 : backoff_factor rc = Int 2) by reflexivity.
  assert (H2 : 1 <= 2) by lia.
  assert (H3 : 0 <= 1 <= 3) by lia.
  split; [exact H1|]. split; [exact H2|]. split; [exact H3|].
  exact (delay_monotone (P := api_down) rc 2 1 3 H1 H2 H3).
Defined.

Lemma delay_saturates_witness :
  let rc := policy 20 2 10 in
  backoff_factor rc = Int 2 /\ 2 <= 2 /\ 0 <= 10
  /\ num_le (max_delay rc) (Int 10) = true
  /\ delay api_down rc 10 = Return (max_delay rc).
Proof.
  intros rc.
  assert (H1 : backoff_factor rc = Int 2) by reflexivity.
  assert (H2 : 2 <= 2) by lia.
  assert (H3 : 0 <= 10) by lia.
  assert (H4 : num_le (max_delay rc) (Int 10) = true) by reflexivity.
  split; [exact H1|]. split; [exact H2|]. split; [exact H3|]. split; [exact H4|].
  exact (delay_saturates (P := api_down) rc 2 10 H1 H2 H3 H4).
Defined.

(** ** More on credential resolution *)

Lemma kms_requests_app tr1 tr2 :
  kms_requests (tr1 ++ tr2) = kms_requests tr1 ++ kms_requests tr2.
Proof.
  induction tr1 as [|ev tr1 IH]; [done|].
  destruct ev; simpl; by rewrite ?IH.
Qed.

Lemma credential_record_cons item items ev :
  credential_record items ev -> credential_record (item :: items) ev.
Proof.
  intros [->|(it & Hin & ->)]; [by left|right].
  exists it. split; [|done]. apply elem_of_cons. by right.
Qed.

Section CredentialTraces.
Context {P : Platform}.
Variable host : Host.

(** One field of the loop of [_load_credentials]. *)
Lemma load_step_raw credentials key env_var rest result (w : World P) value :
  credentials !! key = Some value ->
  load_loop host false credentials ((key, env_var) :: rest) result w
  = load_loop host false credentials rest (<[key := value]> result) w.
Proof. intros Hfile. simpl. by rewrite Hfile. Qed.

Lemma load_step_decrypted credentials key env_var rest result (w w1 : World P) value p :
  credentials !! key = Some value ->
  _decrypt_with_kms value w = (Return p, w1) ->
  load_loop host true credentials ((key, env_var) :: rest) result w
  = load_loop host true credentials rest (<[key := p]> result) w1.
Proof. intros Hfile Hd. simpl. rewrite Hfile. unfold bind. by rewrite Hd. Qed.

Lemma load_step_undecrypted credentials key env_var rest result (w w1 : World P) value e :
  credentials !! key = Some value ->
  _decrypt_with_kms value w = (Raise e, w1) ->
  load_loop host true credentials ((key, env_var) :: rest) result w = (Raise e, w1).
Proof. intros Hfile Hd. simpl. rewrite Hfile. unfold bind. by rewrite Hd. Qed.

Lemma load_step_env kms credentials key env_var rest result (w : World P) v :
  credentials !! key = None ->
  environ host !! env_var = Some v ->
  load_loop host kms credentials ((key, env_var) :: rest) result w
  = load_loop host kms credentials rest (<[key := v]> result)
      (mkWorld (ext w) (trace w ++ [fallback_of key])).
Proof. intros Hfile Henv. simpl. by rewrite Hfile, Henv. Qed.

Lemma load_step_missing kms credentials key env_var rest result (w : World P) :
  credentials !! key = None ->
  environ host !! env_var = None ->
  load_loop host kms credentials ((key, env_var) :: rest) result w
  = (Raise (missing_credential key), w).
Proof. intros Hfile Henv. simpl. by rewrite Hfile, Henv. Qed.

(** What the loop of [_load_credentials] leaves on the trace. *)
Lemma load_loop_trace (kms : bool) credentials (items : list (string * string)) :
  forall (result : gmap string string) (w : World P),
  exists evs,
    trace (snd (load_loop host kms credentials items result w)) = trace w ++ evs
    /\ calls evs = 0%nat
    /\ sleeps evs = []
    /\ kms_requests evs
       `prefix_of` (if kms then file_values credentials items else [])
    /\ (is_raise (fst (load_loop host kms credentials items result w)) = false ->
        kms_requests evs = (if kms then file_values credentials items else [])
        /\ Forall (fun ev => is_log ev = true -> credential_record items ev) evs).
Proof.
  induction items as [|[key env_var] rest IH]; intros result w.
  - exists []. simpl. rewrite app_nil_r.
    split; [done|]. split; [done|]. split; [done|]. split; [apply prefix_nil|].
    intros _. split; [by destruct kms|constructor].
  - unfold file_values. simpl omap.
    destruct (credentials !! key) as [value|] eqn:Hfile.
    + destruct kms.
      * destruct (decrypt_with_kms_run value w) as (evs1 & x1 & Hw1 & Hr1).
        destruct (_decrypt_with_kms value w) as [[p|e] w1] eqn:Hd;
          simpl in Hw1, Hr1; subst w1.
        -- subst evs1.
           rewrite (load_step_decrypted _ _ _ _ _ _ _ _ _ Hfile Hd).
           destruct (IH (<[key := p]> result)
                       (mkWorld x1 (trace w ++ [EvKmsClient value (Return tt); decrypt_log;
                                                EvKms value (Return p)])))
             as (evs2 & Htr & Hc & Hs & Hpre & Hok).
           exists ([EvKmsClient value (Return tt); decrypt_log; EvKms value (Return p)]
                   ++ evs2).
           rewrite Htr. simpl trace. rewrite <- app_assoc.
           split; [done|]. rewrite calls_app, sleeps_app, kms_requests_app, Hc, Hs.
           split; [done|]. split; [done|]. split.
           ++ simpl. by apply prefix_cons.
           ++ intros Hret. destruct (Hok Hret) as [Hreq Hlog]. split.
              ** simpl. by rewrite Hreq.
              ** apply Forall_app. split.
                 --- constructor; [by intros ?|]. constructor; [intros _; by left|].
                     constructor; [by intros ?|]. constructor.
                 --- eapply Forall_impl; [exact Hlog|]. intros ev Hev Hl.
                     apply credential_record_cons. by apply Hev.
        -- rewrite (load_step_undecrypted _ _ _ _ _ _ _ _ _ Hfile Hd).
           exists evs1. split; [done|].
           destruct Hr1 as [->| ->].
           ++ split; [done|]. split; [done|]. split; [apply prefix_nil|].
              intros Hret. discriminate Hret.
           ++ split; [done|]. split; [done|]. split; [apply prefix_cons, prefix_nil|].
              intros Hret. discriminate Hret.
      * rewrite (load_step_raw _ _ _ _ _ _ _ Hfile).
        destruct (IH (<[key := value]> result) w) as (evs2 & Htr & Hc & Hs & Hpre & Hok).
        exists evs2.
        split; [done|]. split; [done|]. split; [done|]. split; [done|].
        intros Hret. destruct (Hok Hret) as [Hreq Hlog]. split; [done|].
        eapply Forall_impl; [exact Hlog|]. intros ev Hev Hl.
        apply credential_record_cons. by apply Hev.
    + destruct (environ host !! env_var) as [v|] eqn:Henv.
      * rewrite (load_step_env _ _ _ _ _ _ _ _ Hfile Henv).
        destruct (IH (<[key := v]> result)
                    (mkWorld (ext w) (trace w ++ [fallback_of key])))
          as (evs2 & Htr & Hc & Hs & Hpre & Hok).
        exists ([fallback_of key] ++ evs2).
        rewrite Htr. simpl trace. rewrite <- app_assoc.
        split; [done|]. rewrite calls_app, sleeps_app, kms_requests_app, Hc, Hs.
        split; [done|]. split; [done|]. split; [done|].
        intros Hret. destruct (Hok Hret) as [Hreq Hlog]. split; [done|].
        apply Forall_app. split.
        -- constructor; [|constructor]. intros _. right. exists (key, env_var).
           split; [apply elem_of_cons; by left|done].
        -- eapply Forall_impl; [exact Hlog|]. intros ev Hev Hl.
           apply credential_record_cons. by apply Hev.
      * rewrite (load_step_missing _ _ _ _ _ _ _ Hfile Henv).
        exists []. simpl. rewrite app_nil_r.
        split; [done|]. split; [done|]. split; [done|]. split; [apply prefix_nil|].
        intros Hret. discriminate Hret.
Qed.
End CredentialTraces.

Section CredentialExtras.
Context {P : Platform}.
Variable host : Host.
Variable config : Config.

Lemma load_credentials_keys (w w1 : World P) (result : gmap string string) :
  _load_credentials host config w = (Return result, w1) ->
  forall key, key ∈ cred_mapping.*1 -> is_Some (result !! key).
Proof.
  unfold _load_credentials.
  destruct (creds_files host (credentials_file (twitter config))) as [|msg|credentials];
    [discriminate|discriminate|].
  intros Hrun key Hkey.
  destruct (load_loop_run host (use_kms (twitter config)) credentials cred_mapping
              cred_mapping_NoDup ∅ w) as (evs & x' & _ & _ & _ & Hout).
  rewrite Hrun in Hout. cbv beta iota delta [fst] in Hout. destruct Hout as (Hdom & _).
  apply elem_of_dom. rewrite Hdom. apply elem_of_union. right.
  by apply elem_of_list_to_set.
Qed.

(** X6.  [_load_credentials] hands to [kms.decrypt] only values found in the
    credentials file, in the order of the loop and each field at most once;
    when it returns and [use_kms] is set, these are all the file's values
    for the four fields.  With [use_kms] unset nothing is handed to KMS and
    the services are left untouched.  A value taken from the environment is
    never decrypted. *)
Theorem load_credentials_kms_requests (credentials : gmap string string) (w : World P) :
  creds_files host (credentials_file (twitter config)) = Doc credentials ->
  exists evs,
    trace (snd (_load_credentials host config w)) = trace w ++ evs
    /\ kms_requests evs
       `prefix_of` (if use_kms (twitter config)
                    then file_values credentials cred_mapping else [])
    /\ (is_raise (fst (_load_credentials host config w)) = false ->
        kms_requests evs = (if use_kms (twitter config)
                            then file_values credentials cred_mapping else []))
    /\ (use_kms (twitter config) = false ->
        ext (snd (_load_credentials host config w)) = ext w).
Proof.
  intros Hfile. unfold _load_credentials. rewrite Hfile.
  destruct (load_loop_trace host (use_kms (twitter config)) credentials cred_mapping ∅ w)
    as (evs & Htr & _ & _ & Hpre & Hok).
  exists evs. split; [done|]. split; [done|]. split.
  - intros Hret. by destruct (Hok Hret).
  - intros Hkms.
    destruct (load_loop_run host (use_kms (twitter config)) credentials cred_mapping
                cred_mapping_NoDup ∅ w) as (evs' & x' & Hw & _ & Hk & _).
    rewrite Hw. simpl. by destruct (Hk Hkms).
Qed.

(** X7.  When [_load_credentials] returns, every record it has written to
    the logger is the fixed notice of a decryption or the notice naming a
    field taken from the environment: no credential value is logged. *)
Theorem load_credentials_log_records (w : World P) :
  is_raise (fst (_load_credentials host config w)) = false ->
  exists evs,
    trace (snd (_load_credentials host config w)) = trace w ++ evs
    /\ Forall (fun ev => is_log ev = true -> credential_record cred_mapping ev) evs.
Proof.
  unfold _load_credentials.
  destruct (creds_files host (credentials_file (twitter config))) as [|msg|credentials];
    [discriminate|discriminate|].
  intros Hret.
  destruct (load_loop_trace host (use_kms (twitter config)) credentials cred_mapping ∅ w)
    as (evs & Htr & _ & _ & _ & Hok).
  exists evs. split; [done|]. by destruct (Hok Hret).
Qed.

(** X8.  [_setup_twitter_client] builds the client from the four values
    [_load_credentials] returned, the lookups in that result never fail, and
    it writes one INFO record; when [_load_credentials] raises, it writes
    one ERROR record with the message of the error and raises the same
    error. *)
Theorem setup_twitter_client_run (w : World P) :
  match _load_credentials host config w with
  | (Return result, w1) =>
      exists consumer_key consumer_secret access_token_key access_token_secret,
        result !! "consumer_key" = Some consumer_key
        /\ result !! "consumer_secret" = Some consumer_secret
        /\ result !! "access_token_key" = Some access_token_key
        /\ result !! "access_token_secret" = Some access_token_secret
        /\ _setup_twitter_client host config w
           = (Return {| app_key := consumer_key; app_secret := consumer_secret;
                        oauth_token := access_token_key;
                        oauth_token_secret := access_token_secret |},
              mkWorld (ext w1)
                (trace w1 ++ [EvLog INFO "Twitter client initialized successfully"]))
  | (Raise e, w1) =>
      _setup_twitter_client host config w
      = (Raise e,
         mkWorld (ext w1)
           (trace w1 ++ [EvLog ERROR ("Failed to setup Twitter client: " +:+ exn_str e)]))
  end.
Proof.
  destruct (_load_credentials host config w) as [[result|e] w1] eqn:Hrun.
  - pose proof (load_credentials_keys w w1 result Hrun) as Hkeys.
    destruct (Hkeys "consumer_key") as [ck Hck]; [unfold cred_mapping; simpl; rewrite !elem_of_cons; auto|].
    destruct (Hkeys "consumer_secret") as [cs Hcs]; [unfold cred_mapping; simpl; rewrite !elem_of_cons; auto|].
    destruct (Hkeys "access_token_key") as [at' Hat]; [unfold cred_mapping; simpl; rewrite !elem_of_cons; auto|].
    destruct (Hkeys "access_token_secret") as [ats Hats]; [unfold cred_mapping; simpl; rewrite !elem_of_cons; auto 6|].
    exists ck, cs, at', ats. repeat (split; [done|]).
    unfold _setup_twitter_client, try_except, bind at 1. rewrite Hrun.
    unfold bind, getitem. rewrite Hck, Hcs, Hat, Hats. done.
  - unfold _setup_twitter_client, try_except, bind at 1. by rewrite Hrun.
Qed.
End CredentialExtras.

(** ** More on the bot and its entry points *)

Section BotTraces.
Context {P : Platform}.
Variable host : Host.

Lemma load_credentials_calls (config : Config) (w : World P) :
  exists evs,
    trace (snd (_load_credentials host config w)) = trace w ++ evs /\ calls evs = 0%nat.
Proof.
  unfold _load_credentials.
  destruct (creds_files host (credentials_file (twitter config))) as [|msg|credentials].
  - eexists. split; [reflexivity|done].
  - exists []. simpl. by rewrite app_nil_r.
  - destruct (load_loop_trace host (use_kms (twitter config)) credentials cred_mapping ∅ w)
      as (evs & Htr & Hc & _). by exists evs.
Qed.

Lemma setup_twitter_client_calls (config : Config) (w : World P) :
  exists evs,
    trace (snd (_setup_twitter_client host config w)) = trace w ++ evs
    /\ calls evs = 0%nat.
Proof.
  destruct (load_credentials_calls config w) as (evs & Htr & Hc).
  unfold _setup_twitter_client, try_except, bind at 1.
  destruct (_load_credentials host config w) as [[result|e] w1]; simpl in Htr.
  - unfold bind, getitem.
    destruct (result !! "consumer_key"); simpl;
      [destruct (result !! "consumer_secret"); simpl;
       [destruct (result !! "access_token_key"); simpl;
        [destruct (result !! "access_token_secret"); simpl|]|]|];
      rewrite Htr; eexists; rewrite <- app_assoc;
      (split; [reflexivity|]); by rewrite calls_app, Hc.
  - simpl. rewrite Htr.
    eexists. rewrite <- app_assoc. split; [reflexivity|]. by rewrite calls_app, Hc.
Qed.

(** How [TwitterBot.__init__] goes, by what the configuration file holds. *)
Lemma twitter_bot_init_run (config_path : string) (w : World P) :
  match config_files host config_path with
  | Doc c =>
      match _setup_twitter_client host c w with
      | (Return client, w1) =>
          TwitterBot_init host config_path w
          = (Return {| config := c;
                       logger := {| logger_level := level (logging c);
                                    formatter := if String.eqb (format (logging c)) "json"
                                                 then JsonFormatter else PlainFormatter |};
                       twitter_client := Some client |}, w1)
      | (Raise e, w1) => TwitterBot_init host config_path w = (Raise e, w1)
      end
  | NoFile =>
      TwitterBot_init host config_path w
      = (Raise (Exn "FileNotFoundError"
                  ("Configuration file " +:+ config_path +:+ " not found")), w)
  | BadJson msg =>
      TwitterBot_init host config_path w
      = (Raise (ValueError ("Invalid JSON in configuration file: " +:+ msg)), w)
  end.
Proof.
  unfold TwitterBot_init, _load_config, _setup_logging, bind.
  destruct (config_files host config_path) as [|msg|c]; [done|done|]. simpl.
  by destruct (_setup_twitter_client host c w) as [[client|e] w1].
Qed.

Lemma twitter_bot_init_calls (config_path : string) (w : World P) :
  exists evs,
    trace (snd (TwitterBot_init host config_path w)) = trace w ++ evs
    /\ calls evs = 0%nat.
Proof.
  pose proof (twitter_bot_init_run config_path w) as Hrun.
  destruct (config_files host config_path) as [|msg|c].
  - rewrite Hrun. exists []. simpl. by rewrite app_nil_r.
  - rewrite Hrun. exists []. simpl. by rewrite app_nil_r.
  - destruct (setup_twitter_client_calls c w) as (evs & Htr & Hc).
    destruct (_setup_twitter_client host c w) as [[client|e] w1];
      rewrite Hrun; by exists evs.
Qed.
End BotTraces.

Section SendTraces.
Context {P : Platform}.
Variable self : TwitterBot.

Lemma send_tweet_calls (tweet_text : string) (w : World P) :
  exists evs,
    trace (snd (send_tweet self tweet_text w)) = trace w ++ evs
    /\ (calls evs <= Z.to_nat (max_attempts (retry (config self))))%nat.
Proof.
  unfold send_tweet.
  destruct (negb (str_bool tweet_text) || (280 <? len tweet_text)).
  - exists []. simpl. rewrite app_nil_r. split; [done|]. unfold calls. simpl. lia.
  - unfold try_except, bind. destruct (twitter_client self) as [client|].
    + destruct (retry_loop_bounds (retry (config self)) (update_status P client tweet_text)
                  (Z.to_nat (max_attempts (retry (config self)))) 0%nat w)
        as (evs & Hw & Hle & _); [lia|].
      unfold _retry_with_backoff, range.
      destruct (retry_loop _ _ _ w) as [[v|e] w1]; simpl in Hw; subst w1; simpl;
        eexists; rewrite <- app_assoc; (split; [reflexivity|]);
        rewrite calls_app; unfold calls at 2; simpl; lia.
    + simpl. eexists. split; [reflexivity|]. unfold calls. simpl. lia.
Qed.

Lemma send_random_tweet_calls (w : World P) :
  exists evs,
    trace (snd (send_random_tweet self w)) = trace w ++ evs
    /\ (calls evs <= Z.to_nat (max_attempts (retry (config self))))%nat.
Proof.
  unfold send_random_tweet.
  destruct (tweets (bot (config self))) as [|t ts].
  - simpl. eexists. split; [reflexivity|]. unfold calls. simpl. lia.
  - unfold bind, random_choice.
    destruct (randbelow P (length (t :: ts)) (ext w)) as [i x].
    set (w1 := mkWorld x (trace w ++ [EvChoice (length (t :: ts)) i])).
    destruct (send_tweet_calls (nth (i mod length (t :: ts)) (t :: ts) ""%string) w1)
      as (evs & Htr & Hle).
    exists ([EvChoice (length (t :: ts)) i] ++ evs).
    rewrite Htr. unfold w1. simpl trace. rewrite <- app_assoc.
    split; [done|]. rewrite calls_app. unfold calls at 1. simpl. lia.
Qed.
End SendTraces.

Section BotExtras.
Context {P : Platform}.
Variable host : Host.

(** X9.  A bot returned by [TwitterBot.__init__] carries the configuration
    read from the file, a logger at the configured level, and a client: the
    one [_setup_twitter_client] built from that configuration.  Its
    [twitter_client] is never [None]. *)
Theorem twitter_bot_init_built (config_path : string) (w w' : World P) (bot : TwitterBot) :
  TwitterBot_init host config_path w = (Return bot, w') ->
  config_files host config_path = Doc (config bot)
  /\ logger_level (logger bot) = level (logging (config bot))
  /\ exists client,
       twitter_client bot = Some client
       /\ _setup_twitter_client host (config bot) w = (Return client, w').
Proof.
  intros Hinit. pose proof (twitter_bot_init_run host config_path w) as Hrun.
  destruct (config_files host config_path) as [|msg|c]; [congruence|congruence|].
  destruct (_setup_twitter_client host c w) as [[client|e] w1] eqn:Hsetup; [|congruence].
  rewrite Hrun in Hinit. injection Hinit as <- <-. simpl.
  split; [done|]. split; [done|]. by exists client.
Qed.

(** X10.  When config.json is absent or is not valid JSON, [handler]
    answers 500 with the message of that error and writes one record;
    nothing else is read, decrypted, drawn or posted, and the services are
    left as they were. *)
Theorem handler_without_config {E C : Type} (event : E) (context : C) (w : World P) :
  (forall c, config_files host "config.json" <> Doc c) ->
  exists msg,
    handler host event context w
    = (Return {| statusCode := 500;
                 body := [ ("success"%string, JBool false);
                           ("error"%string, JStr msg) ] |},
       mkWorld (ext w) (trace w ++ [EvLog ERROR ("Handler error: " +:+ msg)]))
    /\ (config_files host "config.json" = NoFile ->
        msg = "Configuration file config.json not found"%string)
    /\ (forall m, config_files host "config.json" = BadJson m ->
        msg = ("Invalid JSON in configuration file: " +:+ m)%string).
Proof.
  intros Hno. pose proof (twitter_bot_init_run host "config.json" w) as Hrun.
  unfold handler, try_except, bind at 1.
  destruct (config_files host "config.json") as [|m|c] eqn:Hfile.
  - rewrite Hrun. eexists. split; [reflexivity|]. split; [done|]. intros m' [=].
  - rewrite Hrun. eexists. split; [reflexivity|]. split; [intros [=]|].
    by intros m' [= <-].
  - by destruct (Hno c).
Qed.

(** X14.  [handler] answers with the [error] of what [main] would raise.
    When the script run ends without an exception, the bot was built and
    [send_random_tweet] returned a boolean: [handler] then answers with that
    boolean as [success], 200 for [True] and 500 for [False], the matching
    [message], and no record of its own.  When the script run raises [e],
    [handler] answers 500 with [str(e)] as [error] after one record. *)
Theorem handler_wraps_main {E C : Type} (event : E) (context : C) (w : World P) :
  match main host w with
  | (Return _, w1) =>
      exists (bot : TwitterBot) (w0 : World P) (success : bool),
        TwitterBot_init host "config.json" w = (Return bot, w0)
        /\ send_random_tweet bot w0 = (Return success, w1)
        /\ handler host event context w
           = (Return {| statusCode := if success then 200 else 500;
                        body := [ ("success"%string, JBool success);
                                  ("message"%string,
                                   JStr (if success then "Tweet sent successfully"
                                         else "Failed to send tweet")) ] |}, w1)
  | (Raise e, w1) =>
      handler host event context w
      = (Return {| statusCode := 500;
                   body := [ ("success"%string, JBool false);
                             ("error"%string, JStr (exn_str e)) ] |},
         mkWorld (ext w1) (trace w1 ++ [EvLog ERROR ("Handler error: " +:+ exn_str e)]))
  end.
Proof.
  unfold main, handler, try_except, bind.
  destruct (TwitterBot_init host "config.json" w) as [[bot|e] w1]; [|done].
  destruct (send_random_tweet bot w1) as [[success|e] w2] eqn:Hsend; [|done].
  simpl. by exists bot, w1, success.
Qed.

(** X13.  One call of [handler] invokes the posting operation at most
    [max_attempts] times, [max_attempts] being the one of config.json, and
    not at all when config.json cannot be read. *)
Theorem handler_posts_bounded {E C : Type} (event : E) (context : C) (w : World P) :
  exists evs,
    trace (snd (handler host event context w)) = trace w ++ evs
    /\ match config_files host "config.json" with
       | Doc c => (calls evs <= Z.to_nat (max_attempts (retry c)))%nat
       | _ => calls evs = 0%nat
       end.
Proof.
  destruct (twitter_bot_init_calls host "config.json" w) as (evs1 & Htr1 & Hc1).
  pose proof (twitter_bot_init_run host "config.json" w) as Hrun.
  unfold handler, try_except, bind at 1.
  destruct (TwitterBot_init host "config.json" w) as [[bot|e] w1] eqn:Hinit;
    simpl in Htr1.
  - destruct (config_files host "config.json") as [|msg|c]; [congruence|congruence|].
    destruct (_setup_twitter_client host c w) as [[client|e] w1']; [|congruence].
    injection Hrun as -> ->.
    set (bot := {| config := c; logger := _; twitter_client := Some client |}).
    destruct (send_random_tweet_calls bot w1') as (evs2 & Htr2 & Hc2).
    unfold bind.
    destruct (send_random_tweet bot w1') as [[success|e] w2]; simpl in Htr2; simpl.
    + exists (evs1 ++ evs2). rewrite Htr2, Htr1, <- app_assoc. split; [done|].
      rewrite calls_app, Hc1. simpl in Hc2. lia.
    + exists (evs1 ++ evs2 ++ [EvLog ERROR ("Handler error: " +:+ exn_str e)]).
      rewrite Htr2, Htr1, <- !app_assoc. split; [done|].
      rewrite !calls_app, Hc1. unfold calls at 2. simpl in *. lia.
  - simpl. exists (evs1 ++ [EvLog ERROR ("Handler error: " +:+ exn_str e)]).
    rewrite Htr1, <- app_assoc. split; [done|].
    assert (Hz : calls (evs1 ++ [EvLog ERROR ("Handler error: " +:+ exn_str e)]) = 0%nat)
      by (by rewrite calls_app, Hc1).
    rewrite Hz. destruct (config_files host "config.json"); [done|done|lia].
Qed.
End BotExtras.

Section SendExtras.
Context {P : Platform}.
Variable self : TwitterBot.

Lemma random_choice_member (seq : list string) (w : World P) :
  seq <> [] ->
  exists i t,
    t ∈ seq
    /\ random_choice seq w
       = (Return t,
          mkWorld (snd (randbelow P (length seq) (ext w)))
            (trace w ++ [EvChoice (length seq) i])).
Proof.
  intros Hne. unfold random_choice.
  destruct (randbelow P (length seq) (ext w)) as [i x].
  exists i, (nth (i mod length seq) seq ""%string). split; [|done].
  apply list_elem_of_In, nth_In, Nat.mod_upper_bound.
  by destruct seq.
Qed.

Lemma text_cases (t : string) :
  valid_text t \/ (t = EmptyString \/ 280 < len t).
Proof.
  unfold valid_text. destruct (decide (t = EmptyString)); [by right; left|].
  destruct (decide (280 < len t)); [by right; right|]. left. split; [done|lia].
Qed.

(** X11.  With at least one configured tweet, [send_random_tweet] draws once
    and sends one of the configured tweets: it goes on as [send_tweet] on
    that text. *)
Theorem send_random_tweet_draws (w : World P) :
  tweets (bot (config self)) <> [] ->
  exists i t,
    t ∈ tweets (bot (config self))
    /\ send_random_tweet self w
       = send_tweet self t
           (mkWorld (snd (randbelow P (length (tweets (bot (config self)))) (ext w)))
              (trace w ++ [EvChoice (length (tweets (bot (config self)))) i])).
Proof.
  intros Hne.
  destruct (random_choice_member (tweets (bot (config self))) w Hne) as (i & t & Hin & Hch).
  exists i, t. split; [done|].
  unfold send_random_tweet. destruct (tweets (bot (config self))) as [|t0 ts]; [done|].
  unfold bind. by rewrite Hch.
Qed.

(** X12.  [send_random_tweet] raises nothing but the validation error of
    [send_tweet], and only when one of the configured tweets is empty or
    longer than 280 characters; when all configured tweets pass validation
    it returns a boolean. *)
Theorem send_random_tweet_raises (w : World P) :
  (is_raise (fst (send_random_tweet self w)) = true ->
   fst (send_random_tweet self w) = Raise validation_error
   /\ exists t, t ∈ tweets (bot (config self)) /\ ~ valid_text t)
  /\ (Forall valid_text (tweets (bot (config self))) ->
      is_raise (fst (send_random_tweet self w)) = false).
Proof.
  assert (Hmain : is_raise (fst (send_random_tweet self w)) = true ->
                  fst (send_random_tweet self w) = Raise validation_error
                  /\ exists t, t ∈ tweets (bot (config self)) /\ ~ valid_text t).
  { unfold send_random_tweet.
    destruct (tweets (bot (config self))) as [|t0 ts] eqn:Htw; [discriminate|].
    destruct (random_choice_member (t0 :: ts) w ltac:(done)) as (i & t & Hin & Hch).
    unfold bind. rewrite Hch. set (w1 := mkWorld _ _). intros Hr.
    destruct (text_cases t) as [[Hne Hlen]|Hbad].
    - destruct (send_tweet_accepts self t w1 Hne Hlen) as (b & w2 & Heq).
      rewrite Heq in Hr. discriminate.
    - rewrite (send_tweet_rejects self t w1 Hbad). split; [done|].
      exists t. split; [done|]. intros [Hne Hlen]. destruct Hbad; [done|lia]. }
  split; [exact Hmain|].
  intros Hall. apply not_true_is_false. intros Hr.
  destruct (Hmain Hr) as (_ & t & Hin & Hbad).
  apply Hbad. rewrite Forall_forall in Hall. by apply Hall.
Qed.

(** X15.  With [max_attempts] zero or negative, [send_tweet] on a valid text
    returns [True] although the posting operation has not been invoked: the
    only thing it does is write the record of success. *)
Theorem send_tweet_without_attempts (client : Twython) (tweet_text : string) (w : World P) :
  max_attempts (retry (config self)) <= 0 ->
  twitter_client self = Some client ->
  valid_text tweet_text ->
  send_tweet self tweet_text w
  = (Return true,
     mkWorld (ext w)
       (trace w ++ [EvLog INFO ("Tweet sent successfully: "
                                +:+ substring 0 50 tweet_text +:+ "...")])).
Proof.
  intros HN Hclient [Hne Hlen]. unfold send_tweet.
  replace (negb (str_bool tweet_text) || (280 <? len tweet_text)) with false.
  - rewrite Hclient. unfold try_except, bind.
    by rewrite (retry_no_attempts _ _ w HN).
  - symmetry. apply orb_false_iff. split.
    + apply negb_false_iff. destruct (str_bool tweet_text) eqn:Hb; [done|].
      by apply str_bool_false in Hb.
    + by apply Z.ltb_ge.
Qed.
End SendExtras.

(** ** The added properties on concrete inputs *)

Lemma load_credentials_kms_requests_witness :
  let host := host_of true [] (Doc three_fields) secret_env in
  let config := demo_config true [] in
  let w := fresh (P := api_up) 0%nat in
  creds_files host (credentials_file (twitter config)) = Doc three_fields
  /\ exists evs,
       trace (snd (_load_credentials host config w)) = trace w ++ evs
       /\ kms_requests evs
          `prefix_of` (if use_kms (twitter config)
                       then file_values three_fields cred_mapping else [])
       /\ (is_raise (fst (_load_credentials host config w)) = false ->
           kms_requests evs = (if use_kms (twitter config)
                               then file_values three_fields cred_mapping else []))
       /\ (use_kms (twitter config) = false ->
           ext (snd (_load_credentials host config w)) = ext w).
Proof.
  intros host config w.
  assert (H : creds_files host (credentials_file (twitter config)) = Doc three_fields)
    by reflexivity.
  split; [exact H|].
  exact (load_credentials_kms_requests host config three_fields w H).
Defined.

Example kms_requests_in_loop_order :
  kms_requests
    (trace (snd (_load_credentials (P := api_up)
                   (host_of true [] (Doc three_fields) secret_env) (demo_config true [])
                   (fresh (P := api_up) 0%nat))))
  = ["ck"; "cs"; "at"]
  /\ kms_requests
       (trace (snd (_load_credentials (P := api_up)
                      (host_of true [] (Doc garbled_fields) all_env) (demo_config true [])
                      (fresh (P := api_up) 0%nat))))
     = ["ck"; "garbled"].
Proof. vm_compute. done. Qed.

Lemma load_credentials_log_records_witness :
  let host := host_of true [] (Doc three_fields) secret_env in
  let config := demo_config true [] in
  let w := fresh (P := api_up) 0%nat in
  is_raise (fst (_load_credentials host config w)) = false
  /\ exists evs,
       trace (snd (_load_credentials host config w)) = trace w ++ evs
       /\ Forall (fun ev => is_log ev = true -> credential_record cred_mapping ev) evs.
Proof.
  intros host config w.
  assert (H : is_raise (fst (_load_credentials host config w)) = false)
    by (vm_compute; reflexivity).
  split; [exact H|].
  exact (load_credentials_log_records host config w H).
Defined.

Lemma twitter_bot_init_built_witness :
  let host := host_of false ["hello"] (Doc three_fields) secret_env in
  let w := fresh (P := api_up) 0%nat in
  exists bot w',
    TwitterBot_init host "config.json" w = (Return bot, w')
    /\ config_files host "config.json" = Doc (config bot)
    /\ logger_level (logger bot) = level (logging (config bot))
    /\ exists client,
         twitter_client bot = Some client
         /\ _setup_twitter_client host (config bot) w = (Return client, w').
Proof.
  intros host w.
  destruct (TwitterBot_init host "config.json" w) as [[bot|e] w'] eqn:H.
  - exists bot, w'. split; [reflexivity|].
    exact (twitter_bot_init_built host "config.json" w w' bot H).
  - vm_compute in H. discriminate H.
Defined.

Lemma handler_without_config_witness :
  let w := fresh (P := api_up) 0%nat in
  (forall c, config_files no_config_host "config.json" <> Doc c)
  /\ exists msg,
       handler no_config_host tt tt w
       = (Return {| statusCode := 500;
                    body := [ ("success"%string, JBool false);
                              ("error"%string, JStr msg) ] |},
          mkWorld (ext w) (trace w ++ [EvLog ERROR ("Handler error: " +:+ msg)]))
       /\ (config_files no_config_host "config.json" = NoFile ->
           msg = "Configuration file config.json not found"%string)
       /\ (forall m, config_files no_config_host "config.json" = BadJson m ->
           msg = ("Invalid JSON in configuration file: " +:+ m)%string).
Proof.
  intros w.
  assert (H : forall c, config_files no_config_host "config.json" <> Doc c)
    by (intros c; discriminate).
  split; [exact H|].
  exact (handler_without_config no_config_host tt tt w H).
Defined.

Lemma send_random_tweet_draws_witness :
  let self := demo_bot ["hello"; "world"] in
  let w := fresh (P := api_up) 0%nat in
  tweets (bot (config self)) <> []
  /\ exists i t,
       t ∈ tweets (bot (config self))
       /\ send_random_tweet self w
          = send_tweet self t
              (mkWorld (snd (randbelow api_up (length (tweets (bot (config self)))) (ext w)))
                 (trace w ++ [EvChoice (length (tweets (bot (config self)))) i])).
Proof.
  intros self w.
  assert (H : tweets (bot (config self)) <> []) by discriminate.
  split; [exact H|].
  exact (send_random_tweet_draws self w H).
Defined.

Lemma send_tweet_without_attempts_witness :
  let w := fresh (P := api_down) 0%nat in
  max_attempts (retry (config idle_bot)) <= 0
  /\ twitter_client idle_bot = Some demo_client
  /\ valid_text "hello"
  /\ send_tweet idle_bot "hello" w
     = (Return true,
        mkWorld (ext w)
          (trace w ++ [EvLog INFO ("Tweet sent successfully: "
                                   +:+ substring 0 50 "hello" +:+ "...")])).
Proof.
  intros w.
  assert (H1 : max_attempts (retry (config idle_bot)) <= 0) by (simpl; lia).
  assert (H2 : twitter_client idle_bot = Some demo_client) by reflexivity.
  assert (H3 : valid_text "hello").
  { split; [discriminate|]. vm_compute. discriminate. }
  split; [exact H1|]. split; [exact H2|]. split; [exact H3|].
  exact (send_tweet_without_attempts idle_bot demo_client "hello" w H1 H2 H3).
Defined.

Example handler_posts_at_most_three_times :
  calls (trace (snd (handler (P := api_down) (host_of false ["hello"] (Doc full_fields) ∅)
                       tt tt (fresh (P := api_down) 0%nat))))
  = 3%nat
  /\ total (sleeps (trace (snd (handler (P := api_down)
                                  (host_of false ["hello"] (Doc full_fields) ∅)
                                  tt tt (fresh (P := api_down) 0%nat)))))
     = 3%Q.
Proof. vm_compute. done. Qed.

(** ** Reading the outcome of the retry executor backwards *)

Lemma logs_app tr1 tr2 : logs (tr1 ++ tr2) = (logs tr1 + logs tr2)%nat.
Proof. unfold logs. by rewrite List.filter_app, length_app. Qed.

Section RetryInversion.
Context {P : Platform} {A : Type}.
Variable rc : RetryConfig.
Variable func : Ext P -> result A * Ext P.

(** What the result of the loop over the attempts [k .. k + m - 1] says
    about the invocations made. *)
Lemma retry_loop_inv (m : nat) : forall (k : nat) (w : World P),
  (m = 0%nat \/ Z.of_nat (k + m) = max_attempts rc) ->
  exists evs,
    snd (retry_loop rc func (map Z.of_nat (seq k m)) w)
    = mkWorld (ext_after func (calls evs) (ext w)) (trace w ++ evs)
    /\ match fst (retry_loop rc func (map Z.of_nat (seq k m)) w) with
       | Return None => m = 0%nat /\ evs = []
       | Return (Some v) =>
           exists j, calls evs = S j
             /\ (j < m)%nat
             /\ outcome func j (ext w) = Return v
             /\ (forall i, (i < j)%nat -> is_raise (outcome func i (ext w)) = true)
             /\ logs evs = j
       | Raise e =>
           exists j, calls evs = S j
             /\ (j < m)%nat
             /\ (forall i, (i <= j)%nat -> is_raise (outcome func i (ext w)) = true)
             /\ ((outcome func j (ext w) = Raise e
                  /\ Z.of_nat (k + j) = max_attempts rc - 1
                  /\ logs evs = S j)
                 \/ (exists d, delay P rc (Z.of_nat (k + j)) = Return d
                               /\ e = sleep_error P d
                               /\ sleep_ok P d = false
                               /\ Z.of_nat (k + j) <> max_attempts rc - 1
                               /\ logs evs = S j)
                 \/ (delay P rc (Z.of_nat (k + j)) = Raise e
                     /\ Z.of_nat (k + j) <> max_attempts rc - 1
                     /\ logs evs = j))
       end.
Proof.
  induction m as [|m IH]; intros k w Hal.
  - exists []. simpl. rewrite app_nil_r. by destruct w.
  - destruct Hal as [Hal|Hal]; [lia|].
    simpl seq. simpl map.
    destruct (fst (func (ext w))) as [v|e] eqn:He.
    + rewrite (retry_step_success rc func _ _ w v He).
      exists [EvCall]. split; [done|]. simpl.
      exists 0%nat. split; [done|]. split; [lia|]. split; [done|].
      split; [intros; lia|done].
    + assert (Hfirst : is_raise (outcome func 0 (ext w)) = true)
        by (unfold outcome; simpl; by rewrite He).
      assert (Hzero : forall i, (i <= 0)%nat -> is_raise (outcome func i (ext w)) = true)
        by (intros i Hi; by replace i with 0%nat by lia).
      destruct (decide (Z.of_nat k = max_attempts rc - 1)) as [Hlast|Hnot].
      * rewrite (retry_step_last rc func _ _ w e He Hlast).
        exists [EvCall; error_of rc e]. split; [by rewrite <- app_assoc|]. simpl.
        exists 0%nat. split; [done|]. split; [lia|]. split; [done|].
        left. split; [done|]. by rewrite Nat.add_0_r.
      * destruct (delay P rc (Z.of_nat k)) as [d|e'] eqn:Hd.
        -- destruct (sleep_ok P d) eqn:Hok.
           ++ rewrite (retry_step_sleep rc func _ _ w e d He Hnot Hd Hok).
              set (w1 := mkWorld _ _).
              destruct (IH (S k) w1) as (evs & Hw & Hres); [right; lia|].
              set (evs0 := [EvCall; warning_of P (Z.of_nat k) e d; EvSleep d]).
              assert (Hc0 : forall tr, calls (evs0 ++ tr) = S (calls tr))
                by (intros tr; by rewrite calls_app).
              assert (Hl0 : forall tr, logs (evs0 ++ tr) = S (logs tr))
                by (intros tr; by rewrite logs_app).
              exists (evs0 ++ evs). split.
              { rewrite Hw, Hc0. unfold w1, evs0. simpl. by rewrite <- !app_assoc. }
              destruct (fst (retry_loop rc func (map Z.of_nat (seq (S k) m)) w1))
                as [[v|]|e''].
              ** destruct Hres as (j & Hc & Hjm & Hv & Hfail & Hl).
                 exists (S j). rewrite Hc0, Hl0, Hc, Hl.
                 split; [done|]. split; [lia|]. split; [exact Hv|]. split; [|done].
                 intros [|i] Hi; [exact Hfirst|]. apply (Hfail i). lia.
              ** destruct Hres as [Hm _]. lia.
              ** destruct Hres as (j & Hc & Hjm & Hfail & Hwhy).
                 exists (S j). rewrite Hc0, Hl0, Hc.
                 split; [done|]. split; [lia|]. split.
                 { intros [|i] Hi; [exact Hfirst|]. apply (Hfail i). lia. }
                 replace (k + S j)%nat with (S k + j)%nat by lia.
                 destruct Hwhy as [(Ho & Hn & Hl)|[(d' & Hd' & He' & Hr & Hn & Hl)|(Hd' & Hn & Hl)]].
                 --- left. by rewrite Hl.
                 --- right; left. exists d'. by rewrite Hl.
                 --- right; right. by rewrite Hl.
           ++ rewrite (retry_step_rejected rc func _ _ w e d He Hnot Hd Hok).
              exists [EvCall; warning_of P (Z.of_nat k) e d].
              split; [by rewrite <- app_assoc|]. simpl.
              exists 0%nat. split; [done|]. split; [lia|]. split; [done|].
              right; left. exists d. by rewrite Nat.add_0_r.
        -- rewrite (retry_step_no_delay rc func _ _ w e e' He Hnot Hd).
           exists [EvCall]. split; [done|]. simpl.
           exists 0%nat. split; [done|]. split; [lia|]. split; [done|].
           right; right. by rewrite Nat.add_0_r.
Qed.

(** X16.  A value returned by [_retry_with_backoff] is the result of an
    invocation of the operation that succeeded: the last invocation made,
    within the allowed attempts, every earlier one having failed. *)
Theorem retry_returned_value (w w' : World P) (v : A) :
  _retry_with_backoff rc func w = (Return (Some v), w') ->
  exists j,
    Z.of_nat j < max_attempts rc
    /\ outcome func j (ext w) = Return v
    /\ (forall i, (i < j)%nat -> is_raise (outcome func i (ext w)) = true)
    /\ ext w' = ext_after func (S j) (ext w)
    /\ exists evs, trace w' = trace w ++ evs /\ calls evs = S j.
Proof.
  intros Hrun. unfold _retry_with_backoff, range in Hrun.
  destruct (retry_loop_inv (Z.to_nat (max_attempts rc)) 0%nat w) as (evs & Hw & Hres);
    [lia|].
  rewrite Hrun in Hw, Hres. simpl in Hw, Hres.
  destruct Hres as (j & Hc & Hjm & Hv & Hfail & _).
  exists j. split; [lia|]. split; [done|]. split; [done|].
  subst w'. simpl. rewrite Hc. split; [done|]. by exists evs.
Qed.

(** X17.  An error raised by [_retry_with_backoff] comes after invocations
    that all failed, and is the error of the [max_attempts]-th invocation,
    or the error of [time.sleep] for a delay it does not accept after an
    earlier one, or the error raised by the computation of that delay. *)
Theorem retry_raised_error (w w' : World P) (e : exn) :
  _retry_with_backoff rc func w = (Raise e, w') ->
  exists j,
    (forall i, (i <= j)%nat -> is_raise (outcome func i (ext w)) = true)
    /\ ext w' = ext_after func (S j) (ext w)
    /\ ((outcome func j (ext w) = Raise e /\ Z.of_nat j = max_attempts rc - 1)
        \/ (exists d, delay P rc (Z.of_nat j) = Return d
                      /\ e = sleep_error P d
                      /\ sleep_ok P d = false
                      /\ Z.of_nat j < max_attempts rc - 1)
        \/ (delay P rc (Z.of_nat j) = Raise e
            /\ Z.of_nat j < max_attempts rc - 1)).
Proof.
  intros Hrun. unfold _retry_with_backoff, range in Hrun.
  destruct (retry_loop_inv (Z.to_nat (max_attempts rc)) 0%nat w) as (evs & Hw & Hres);
    [lia|].
  rewrite Hrun in Hw, Hres. simpl in Hw, Hres.
  destruct Hres as (j & Hc & Hjm & Hfail & Hwhy).
  exists j. split; [done|]. subst w'. simpl. rewrite Hc. split; [done|].
  destruct Hwhy as [(Ho & Hn & _)|[(d & Hd & He & Hr & Hn & _)|(Hd & Hn & _)]].
  - left. split; [done|]. lia.
  - right; left. exists d. repeat (split; [done|]). lia.
  - right; right. split; [done|]. lia.
Qed.

(** X18.  Every failed invocation is recorded once, except one after
    which the computation of the delay raises: the records written by a run
    of [_retry_with_backoff] are one fewer than the invocations when it
    returns a value, none when no attempt is allowed, and when it raises [e]
    as many as the invocations, or one fewer when [e] is the error raised
    by the computation of a delay. *)
Theorem retry_failures_recorded (w : World P) :
  exists evs,
    trace (snd (_retry_with_backoff rc func w)) = trace w ++ evs
    /\ match fst (_retry_with_backoff rc func w) with
       | Return (Some _) => calls evs = S (logs evs)
       | Return None => calls evs = 0%nat /\ logs evs = 0%nat
       | Raise e =>
           calls evs = logs evs
           \/ (calls evs = S (logs evs) /\ exists i, delay P rc i = Raise e)
       end.
Proof.
  unfold _retry_with_backoff, range.
  destruct (retry_loop_inv (Z.to_nat (max_attempts rc)) 0%nat w) as (evs & Hw & Hres);
    [lia|].
  exists evs. rewrite Hw. split; [done|].
  destruct (fst (retry_loop rc func _ w)) as [[v|]|e].
  - destruct Hres as (j & Hc & _ & _ & _ & Hl). by rewrite Hc, Hl.
  - by destruct Hres as [_ ->].
  - destruct Hres as (j & Hc & _ & _ & Hwhy). rewrite Hc.
    destruct Hwhy as [(_ & _ & Hl)|[(d & _ & _ & _ & _ & Hl)|(Hd & _ & Hl)]].
    + left. by rewrite Hl.
    + left. by rewrite Hl.
    + right. rewrite Hl. split; [done|]. by exists (Z.of_nat (0 + j)).
Qed.
End RetryInversion.


Section SendSoundness.
Context {P : Platform}.
Variable self : TwitterBot.

(** X19.  With at least one attempt allowed, [send_tweet] returns [True]
    only if an invocation of the posting operation succeeded, within the
    allowed attempts, and the services are left as that invocation left
    them. *)
Theorem send_tweet_true_posted (client : Twython) (tweet_text : string) (w w' : World P) :
  twitter_client self = Some client ->
  1 <= max_attempts (retry (config self)) ->
  send_tweet self tweet_text w = (Return true, w') ->
  exists j,
    Z.of_nat j < max_attempts (retry (config self))
    /\ outcome (update_status P client tweet_text) j (ext w) = Return tt
    /\ ext w' = ext_after (update_status P client tweet_text) (S j) (ext w).
Proof.
  intros Hclient HN. unfold send_tweet.
  destruct (negb (str_bool tweet_text) || (280 <? len tweet_text)); [discriminate|].
  rewrite Hclient. unfold try_except, bind.
  destruct (_retry_with_backoff (retry (config self)) (update_status P client tweet_text) w)
    as [[[[]|]|e] w1] eqn:Hrun; simpl.
  - intros [= <-]. simpl.
    destruct (retry_loop_inv (retry (config self)) (update_status P client tweet_text)
                (Z.to_nat (max_attempts (retry (config self)))) 0%nat w)
      as (evs & Hw & Hres); [lia|].
    unfold _retry_with_backoff, range in Hrun. rewrite Hrun in Hw, Hres.
    simpl in Hw, Hres. destruct Hres as (j & Hc & Hjm & Hv & _).
    exists j. split; [lia|]. split; [done|]. subst w1. simpl. by rewrite Hc.
  - intros _.
    destruct (retry_loop_inv (retry (config self)) (update_status P client tweet_text)
                (Z.to_nat (max_attempts (retry (config self)))) 0%nat w)
      as (evs & Hw & Hres); [lia|].
    unfold _retry_with_backoff, range in Hrun. rewrite Hrun in Hres.
    simpl in Hres. lia.
  - discriminate.
Qed.
End SendSoundness.

Section HandlerErrors.
Context {P : Platform} {E C : Type}.
Variable host : Host.

(** X20.  When config.json is read and [_load_credentials] raises [e], the
    error passes through [_setup_twitter_client] and [TwitterBot.__init__]
    unchanged: [handler] answers 500 with [str(e)] as [error], after one
    ERROR record of [_setup_twitter_client] and one of its own, and nothing
    is drawn or posted. *)
Theorem handler_credentials_failure (event : E) (context : C) (w w1 : World P)
    (c : Config) (e : exn) :
  config_files host "config.json" = Doc c ->
  _load_credentials host c w = (Raise e, w1) ->
  handler host event context w
  = (Return {| statusCode := 500;
               body := [ ("success"%string, JBool false);
                         ("error"%string, JStr (exn_str e)) ] |},
     mkWorld (ext w1)
       (trace w1 ++ [EvLog ERROR ("Failed to setup Twitter client: " +:+ exn_str e);
                     EvLog ERROR ("Handler error: " +:+ exn_str e)])).
Proof.
  intros Hfile Hload.
  pose proof (twitter_bot_init_run host "config.json" w) as Hinit.
  rewrite Hfile in Hinit.
  assert (Hsetup : _setup_twitter_client host c w
                   = (Raise e,
                      mkWorld (ext w1)
                        (trace w1 ++ [EvLog ERROR ("Failed to setup Twitter client: "
                                                   +:+ exn_str e)]))).
  { unfold _setup_twitter_client, try_except, bind at 1. by rewrite Hload. }
  rewrite Hsetup in Hinit.
  unfold handler, try_except, bind at 1. rewrite Hinit.
  unfold bind, log, emit, ret. simpl. by rewrite <- app_assoc.
Qed.
End HandlerErrors.

Lemma retry_returned_value_witness :
  let rc := policy 3 2 10 in
  let func := post_hello (api_down_for 2) in
  let w := fresh (P := api_down_for 2) 0%nat in
  exists w',
    _retry_with_backoff rc func w = (Return (Some tt), w')
    /\ exists j,
         Z.of_nat j < max_attempts rc
         /\ outcome func j (ext w) = Return tt
         /\ (forall i, (i < j)%nat -> is_raise (outcome func i (ext w)) = true)
         /\ ext w' = ext_after func (S j) (ext w)
         /\ exists evs, trace w' = trace w ++ evs /\ calls evs = S j.
Proof.
  intros rc func w.
  destruct (_retry_with_backoff rc func w) as [[[[]|]|e] w'] eqn:H.
  - exists w'. split; [reflexivity|].
    exact (retry_returned_value rc func w w' tt H).
  - vm_compute in H. discriminate H.
  - vm_compute in H. discriminate H.
Defined.

Lemma retry_raised_error_witness :
  let rc := steep_policy in
  let func := post_hello api_down in
  let w := fresh (P := api_down) 0%nat in
  exists e w',
    _retry_with_backoff rc func w = (Raise e, w')
    /\ exists j,
         (forall i, (i <= j)%nat -> is_raise (outcome func i (ext w)) = true)
         /\ ext w' = ext_after func (S j) (ext w)
         /\ ((outcome func j (ext w) = Raise e /\ Z.of_nat j = max_attempts rc - 1)
             \/ (exists d, delay api_down rc (Z.of_nat j) = Return d
                           /\ e = sleep_error api_down d
                           /\ sleep_ok api_down d = false
                           /\ Z.of_nat j < max_attempts rc - 1)
             \/ (delay api_down rc (Z.of_nat j) = Raise e
                 /\ Z.of_nat j < max_attempts rc - 1)).
Proof.
  intros rc func w.
  destruct (_retry_with_backoff rc func w) as [[v|e] w'] eqn:H.
  - vm_compute in H. discriminate H.
  - exists e, w'. split; [reflexivity|].
    exact (retry_raised_error rc func w w' e H).
Defined.

Lemma send_tweet_true_posted_witness :
  let self := demo_bot ["hello"] in
  let w := fresh (P := api_down_for 2) 0%nat in
  twitter_client self = Some demo_client
  /\ 1 <= max_attempts (retry (config self))
  /\ exists w',
       send_tweet self "hello" w = (Return true, w')
       /\ exists j,
            Z.of_nat j < max_attempts (retry (config self))
            /\ outcome (update_status (api_down_for 2) demo_client "hello") j (ext w)
               = Return tt
            /\ ext w' = ext_after (update_status (api_down_for 2) demo_client "hello")
                          (S j) (ext w).
Proof.
  intros self w.
  assert (H1 : twitter_client self = Some demo_client) by reflexivity.
  assert (H2 : 1 <= max_attempts (retry (config self))) by (simpl; lia).
  split; [exact H1|]. split; [exact H2|].
  destruct (send_tweet self "hello" w) as [[[|]|e] w'] eqn:H.
  - exists w'. split; [reflexivity|].
    exact (send_tweet_true_posted self demo_client "hello" w w' H1 H2 H).
  - vm_compute in H. discriminate H.
  - vm_compute in H. discriminate H.
Defined.

Lemma handler_credentials_failure_witness :
  let host := host_of false ["hello"] NoFile all_env in
  let w := fresh (P := api_up) 0%nat in
  let e := FileNotFoundError_open "credentials.json" in
  let w1 := mkWorld (P := api_up) 0%nat
              [EvLog ERROR "Credentials file credentials.json not found"] in
  config_files host "config.json" = Doc (demo_config false ["hello"])
  /\ _load_credentials host (demo_config false ["hello"]) w = (Raise e, w1)
  /\ handler host tt tt w
     = (Return {| statusCode := 500;
                  body := [ ("success"%string, JBool false);
                            ("error"%string, JStr (exn_str e)) ] |},
        mkWorld (ext w1)
          (trace w1 ++ [EvLog ERROR ("Failed to setup Twitter client: " +:+ exn_str e);
                        EvLog ERROR ("Handler error: " +:+ exn_str e)])).
Proof.
  intros host w e w1.
  assert (H1 : config_files host "config.json" = Doc (demo_config false ["hello"]))
    by reflexivity.
  assert (H2 : _load_credentials host (demo_config false ["hello"]) w = (Raise e, w1))
    by reflexivity.
  split; [exact H1|]. split; [exact H2|].
  exact (handler_credentials_failure host tt tt w w1 (demo_config false ["hello"]) e H1 H2).
Defined.
